(** * xdress.typefilter: a shallow embedding and its verified properties

    The development follows [xdress/typefilter.py]:
    - Python values that occur in type descriptions ([pyval]),
    - [_flatten] and [_match_anywhere],
    - the plugin's [setup], [execute] and [_modify_class_desc].

    Exceptions are explicit results ([res]); every call of the collaborator
    method [TypeMatcher.matches] is recorded in a trace, so that statements
    about what is evaluated, and in which order, are statements about data. *)

From Stdlib Require Import List String Ascii ZArith Bool Lia.
Import ListNotations.

Set Implicit Arguments.

(** ** Python values *)

(** The values a type description is built from: identifiers are [str],
    composites are tuples or lists nested to any depth, and predicates such as
    the trailing [0] of a canonical type are integers.  [None] stands for a
    missing piece. *)
#[local] Unset Elimination Schemes.
Inductive pyval : Type :=
| VNone
| VInt (z : Z)
| VStr (s : string)
| VTuple (items : list pyval)
| VList (items : list pyval).
#[local] Set Elimination Schemes.

Section pyval_induction.
Variable P : pyval -> Prop.
Hypothesis HNone : P VNone.
Hypothesis HInt : forall z, P (VInt z).
Hypothesis HStr : forall s, P (VStr s).
Hypothesis HTuple : forall l, Forall P l -> P (VTuple l).
Hypothesis HList : forall l, Forall P l -> P (VList l).

Fixpoint pyval_nested_ind (v : pyval) : P v :=
  let fix all (l : list pyval) : Forall P l :=
    match l with
    | [] => Forall_nil P
    | x :: r => Forall_cons x (pyval_nested_ind x) (all r)
    end in
  match v with
  | VNone => HNone
  | VInt z => HInt z
  | VStr s => HStr s
  | VTuple l => HTuple (all l)
  | VList l => HList (all l)
  end.
End pyval_induction.

(** Python's [==] on these values is structural equality (a tuple never equals
    a list). *)
Fixpoint pyval_eqb (a b : pyval) {struct a} : bool :=
  let fix all (l m : list pyval) {struct l} : bool :=
    match l, m with
    | [], [] => true
    | x :: l', y :: m' => pyval_eqb x y && all l' m'
    | _, _ => false
    end in
  match a, b with
  | VNone, VNone => true
  | VInt x, VInt y => Z.eqb x y
  | VStr s, VStr u => String.eqb s u
  | VTuple l, VTuple m => all l m
  | VList l, VList m => all l m
  | _, _ => false
  end.

(** ** Exceptions and results *)

Inductive exn : Type :=
| TypeError
| KeyError
| OtherError (what : string).

Inductive res (A : Type) : Type :=
| Ok (a : A)
| Raise (e : exn).
Arguments Raise {A} e.

(** [isinstance(v, (list, tuple))] *)
Definition is_list_or_tuple (v : pyval) : bool :=
  match v with
  | VTuple _ | VList _ => true
  | _ => false
  end.

(** [isinstance(v, str)] *)
Definition is_str (v : pyval) : bool :=
  match v with
  | VStr _ => true
  | _ => false
  end.

(** Iterating a [str] yields its one-character strings. *)
Definition chars (s : string) : list pyval :=
  map (fun c => VStr (String c EmptyString)) (list_ascii_of_string s).

(** [for el in v]: the items a value yields, or [TypeError] when the value is
    not iterable. *)
Definition py_iter (v : pyval) : res (list pyval) :=
  match v with
  | VTuple l | VList l => Ok l
  | VStr s => Ok (chars s)
  | VNone | VInt _ => Raise TypeError
  end.

(** ** [_flatten] *)

(** [[
    def _flatten(iterable):
        res = []
        try:
            for el in iterable:
                if isinstance(el, (list, tuple)):
                    res.extend(_flatten(el))
                    continue
                res.append(el)
        except TypeError:
            res = iterable
        return res
    ]]
    The loop is [flatten_loop]; it yields the final [res], or the [TypeError]
    that the [except] clause turns into [res = iterable] (nothing but a
    [TypeError] can arise in the loop).  A [str] is iterable: its characters
    are appended one by one. *)
Fixpoint _flatten (iterable : pyval) : pyval :=
  let fix flatten_loop (els : list pyval) : res (list pyval) :=
    match els with
    | [] => Ok []
    | el :: rest =>
        if is_list_or_tuple el then
          match py_iter (_flatten el) with
          | Ok sub =>
              match flatten_loop rest with
              | Ok tail => Ok (sub ++ tail)
              | Raise e => Raise e
              end
          | Raise e => Raise e
          end
        else
          match flatten_loop rest with
          | Ok tail => Ok (el :: tail)
          | Raise e => Raise e
          end
    end in
  match iterable with
  | VTuple els | VList els =>
      match flatten_loop els with
      | Ok r => VList r
      | Raise _ => iterable
      end
  | VStr s => VList (chars s)
  | VNone | VInt _ => iterable
  end.

(** ** [_match_anywhere] *)

(** A [TypeMatcher] instance wraps the pattern it was built from. *)
Record TypeMatcher : Type := new_TypeMatcher { pattern : pyval }.

(** One invocation [tm.matches(t)]. *)
Definition call : Type := (TypeMatcher * pyval)%type.
Definition trace : Type := list call.

(** Truth value of what [_match_anywhere] returns; falling off the end of the
    function returns [None]. *)
Definition truthy (v : option bool) : bool :=
  match v with
  | Some b => b
  | None => false
  end.

(** Python's [any] on a list of booleans. *)
Definition any (l : list bool) : bool := existsb (fun b => b) l.

Section Matching.

(** [TypeMatcher.matches] lives in [xdress.typesystem]; the filter only
    calls it.  It is a parameter here: a deterministic method that returns a
    boolean or raises. *)
Variable matches : TypeMatcher -> pyval -> res bool.

(** The list comprehension [[self.matches(i) for i in leaves]]: every
    element is tested, left to right, and the first exception ends it. *)
Fixpoint matches_each (self : TypeMatcher) (leaves : list pyval)
  : trace * res (list bool) :=
  match leaves with
  | [] => ([], Ok [])
  | i :: rest =>
      match matches self i with
      | Raise e => ([(self, i)], Raise e)
      | Ok b =>
          let '(tr, r) := matches_each self rest in
          ((self, i) :: tr,
           match r with
           | Ok bs => Ok (b :: bs)
           | Raise e => Raise e
           end)
      end
  end.

(** [[
    def _match_anywhere(self, t):
        try:
            if self.matches(t):
                return True
        except TypeError:
            pass
        else:
            if isinstance(t, str):
                return self.matches(t)
            elif isinstance(t, (tuple, list)):
                return any([self.matches(i) for i in _flatten(t)])
    ]]
    The [else] suite of a [try] statement runs only when the [try] suite
    raised nothing; after a caught [TypeError] control leaves the statement
    and the function returns [None]. *)
Definition _match_anywhere (self : TypeMatcher) (t : pyval)
  : trace * res (option bool) :=
  match matches self t with
  | Ok true => ([(self, t)], Ok (Some true))
  | Raise TypeError => ([(self, t)], Ok None)
  | Raise e => ([(self, t)], Raise e)
  | Ok false =>
      if is_str t then
        ([(self, t); (self, t)],
         match matches self t with
         | Ok b => Ok (Some b)
         | Raise e => Raise e
         end)
      else if is_list_or_tuple t then
        match py_iter (_flatten t) with
        | Raise e => ([(self, t)], Raise e)
        | Ok leaves =>
            let '(tr, r) := matches_each self leaves in
            ((self, t) :: tr,
             match r with
             | Ok bs => Ok (Some (any bs))
             | Raise e => Raise e
             end)
        end
      else ([(self, t)], Ok None)
  end.

End Matching.

(** ** Dictionaries *)

(** A [dict] is kept as its items in iteration order.  Python dictionaries
    have pairwise distinct keys ([dict_wf]); [del d[k]] on a missing key
    raises [KeyError]. *)
Definition dict (K V : Type) : Type := list (K * V).

Definition keys {K V : Type} (d : dict K V) : list K := map fst d.

Definition dict_wf {K V : Type} (d : dict K V) : Prop := NoDup (keys d).

Section DictOps.
Variables (K V : Type) (eqb : K -> K -> bool).

(** [k in d] *)
Definition dict_mem (k : K) (d : dict K V) : bool :=
  existsb (fun kv => eqb (fst kv) k) d.

(** [d[k]] *)
Fixpoint dict_get (k : K) (d : dict K V) : res V :=
  match d with
  | [] => Raise KeyError
  | (k', v) :: rest => if eqb k' k then Ok v else dict_get k rest
  end.

(** [del d[k]] *)
Fixpoint dict_del (k : K) (d : dict K V) : res (dict K V) :=
  match d with
  | [] => Raise KeyError
  | (k', v) :: rest =>
      if eqb k' k then Ok rest
      else match dict_del k rest with
           | Ok rest' => Ok ((k', v) :: rest')
           | Raise e => Raise e
           end
  end.
End DictOps.

(** ** The description model *)

(** A parameter as it sits in a method key: [(name, type)] or
    [(name, type, default)]; [arg[1]] is [arg_type]. *)
Record arg : Type := new_arg {
  arg_name : string;
  arg_type : pyval;
  arg_default : option pyval
}.

(** A method key [(name, arg, ...)]; [m_key[1:]] is [m_args]. *)
Record method_key : Type := new_method_key {
  m_name : string;
  m_args : list arg
}.

Definition option_eqb {A : Type} (f : A -> A -> bool) (a b : option A) : bool :=
  match a, b with
  | None, None => true
  | Some x, Some y => f x y
  | _, _ => false
  end.

Fixpoint list_eqb {A : Type} (f : A -> A -> bool) (l m : list A) : bool :=
  match l, m with
  | [], [] => true
  | x :: l', y :: m' => f x y && list_eqb f l' m'
  | _, _ => false
  end.

Definition arg_eqb (a b : arg) : bool :=
  String.eqb (arg_name a) (arg_name b)
  && pyval_eqb (arg_type a) (arg_type b)
  && option_eqb pyval_eqb (arg_default a) (arg_default b).

Definition method_key_eqb (a b : method_key) : bool :=
  String.eqb (m_name a) (m_name b) && list_eqb arg_eqb (m_args a) (m_args b).

(** A class description: [desc['name']], [desc['attrs']] (attribute name to
    type) and [desc['methods']] (method key to return type). *)
Record classdesc : Type := new_classdesc {
  name : string;
  attrs : dict string pyval;
  methods : dict method_key pyval
}.

(** What a module maps an entity name to: a class description, or the
    description of a function or variable. *)
Inductive desc : Type :=
| ClassDesc (c : classdesc)
| OtherDesc (body : pyval).

(** Modelled from the spec: [isclassdesc] is imported from [xdress.utils],
    which is not part of the sources at hand; it tells whether an entity
    descriptor represents a class. *)
Definition isclassdesc (d : desc) : bool :=
  match d with
  | ClassDesc _ => true
  | OtherDesc _ => false
  end.

(** [rc.env]: module name to (entity name to description).  Every descriptor
    is owned by one container, so no two entries share a mutable object. *)
Definition module : Type := dict string desc.
Definition environ : Type := dict string module.

(** [rc.skiptypes], over raw patterns before [setup] and over [TypeMatcher]
    instances after it. *)
Inductive skipconf (A : Type) : Type :=
| NotSpecified
| SkipNone
| SkipDict (d : dict string (list A))
| SkipList (l : list A)
| SkipTuple (l : list A).
Arguments NotSpecified {A}.
Arguments SkipNone {A}.

Record RunControl (A : Type) : Type := new_rc {
  skiptypes : skipconf A;
  env : environ
}.

(** ** The plugin *)

(** [[
    def setup(self, rc):
        if not isinstance(rc.skiptypes, NotSpecified):
            if isinstance(rc.skiptypes, dict):
                _skippers = {}
                for kls in rc.skiptypes.keys():
                    _skippers[kls] = [TypeMatcher(t) for t in rc.skiptypes[kls]]
                rc.skiptypes = _skippers
            elif isinstance(rc.skiptypes, list) or isinstance(rc.skiptypes, tuple):
                rc.skiptypes = [TypeMatcher(t) for t in rc.skiptypes]
    ]]
    A tuple becomes a list; [None] is left as it is.  (The [print] calls of
    the plugin write to the console only and are left out.) *)
Definition setup (rc : RunControl pyval) : RunControl TypeMatcher :=
  match skiptypes rc with
  | NotSpecified => new_rc NotSpecified (env rc)
  | SkipDict d =>
      new_rc (SkipDict (map (fun kv => (fst kv, map new_TypeMatcher (snd kv))) d))
             (env rc)
  | SkipList l | SkipTuple l => new_rc (SkipList (map new_TypeMatcher l)) (env rc)
  | SkipNone => new_rc SkipNone (env rc)
  end.

(** What a piece of the pass leaves behind: the calls of [matches] it made,
    the state it reached (mutation is in place, so the state reached before an
    exception stays), and the exception that ended it, if any. *)
Definition run (S : Type) : Type := (trace * S * option exn)%type.

Section Engine.

Variable matches : TypeMatcher -> pyval -> res bool.

Section Inner.
Variables (K : Type) (eqb : K -> K -> bool).

(** The innermost loop, which the source has three times, for the
    attribute type, the return type and each parameter type:
    [[
    for tm in skips:
        if tm._match_anywhere(t):
            del d[key]
            _deleted = True
            break
    ]]
    The boolean of the state is [_deleted]. *)
Fixpoint delete_on_match (skips : list TypeMatcher) (t : pyval) (key : K)
    (d : dict K pyval) : run (dict K pyval * bool) :=
  match skips with
  | [] => ([], (d, false), None)
  | tm :: rest =>
      let '(tr, r) := _match_anywhere matches tm t in
      match r with
      | Raise e => (tr, (d, false), Some e)
      | Ok v =>
          if truthy v then
            match dict_del eqb key d with
            | Ok d' => (tr, (d', true), None)
            | Raise e => (tr, (d, false), Some e)
            end
          else
            let '(tr', s, o) := delete_on_match rest t key d in
            (tr ++ tr', s, o)
      end
  end.
End Inner.

(** [[
    for at_name, at_t in desc['attrs'].copy().items():
        for tm in skips: ...
    ]]
    [snapshot] is what is left of the copy's items, [attrs] the live
    dictionary. *)
Fixpoint attrs_loop (skips : list TypeMatcher)
    (snapshot : list (string * pyval)) (attrs : dict string pyval)
  : run (dict string pyval) :=
  match snapshot with
  | [] => ([], attrs, None)
  | (at_name, at_t) :: rest =>
      let '(tr, (attrs1, _), o) :=
        delete_on_match String.eqb skips at_t at_name attrs in
      match o with
      | Some e => (tr, attrs1, Some e)
      | None =>
          let '(tr', attrs2, o') := attrs_loop skips rest attrs1 in
          (tr ++ tr', attrs2, o')
      end
  end.

(** [[
    for arg in m_args:
        t = arg[1]
        for tm in skips: ...
        if _deleted:
            break
    ]] *)
Fixpoint args_loop (skips : list TypeMatcher) (args : list arg)
    (m_key : method_key) (methods : dict method_key pyval)
  : run (dict method_key pyval * bool) :=
  match args with
  | [] => ([], (methods, false), None)
  | a :: rest =>
      let t := arg_type a in
      let '(tr, (methods1, _deleted), o) :=
        delete_on_match method_key_eqb skips t m_key methods in
      match o with
      | Some e => (tr, (methods1, _deleted), Some e)
      | None =>
          if _deleted then (tr, (methods1, true), None)
          else
            let '(tr', s, o') := args_loop skips rest m_key methods1 in
            (tr ++ tr', s, o')
      end
  end.

(** [[
    for m_key, m_ret in desc['methods'].copy().items():
        _deleted = False
        for tm in skips: ...          # return type
        if _deleted:
            continue
        m_args = m_key[1:]
        for arg in m_args: ...
    ]] *)
Fixpoint methods_loop (skips : list TypeMatcher)
    (snapshot : list (method_key * pyval)) (methods : dict method_key pyval)
  : run (dict method_key pyval) :=
  match snapshot with
  | [] => ([], methods, None)
  | (m_key, m_ret) :: rest =>
      let '(tr1, (methods1, _deleted), o1) :=
        delete_on_match method_key_eqb skips m_ret m_key methods in
      match o1 with
      | Some e => (tr1, methods1, Some e)
      | None =>
          if _deleted then
            let '(tr', methods', o') := methods_loop skips rest methods1 in
            (tr1 ++ tr', methods', o')
          else
            let '(tr2, (methods2, _), o2) :=
              args_loop skips (m_args m_key) m_key methods1 in
            match o2 with
            | Some e => (tr1 ++ tr2, methods2, Some e)
            | None =>
                let '(tr', methods', o') := methods_loop skips rest methods2 in
                (tr1 ++ tr2 ++ tr', methods', o')
            end
      end
  end.

(** [[
    if name is None:
        skips = rc.skiptypes
    else:
        skips = rc.skiptypes[name]
    ]]
    [execute] calls with no name under a list and with a key of the
    dictionary under a dictionary; any other combination is reported as an
    exception here. *)
Definition select_skips (sk : skipconf TypeMatcher) (name : option string)
  : res (list TypeMatcher) :=
  match name, sk with
  | None, SkipList l => Ok l
  | None, SkipTuple l => Ok l
  | Some n, SkipDict d => dict_get String.eqb n d
  | _, _ => Raise TypeError
  end.

(** [_modify_class_desc(self, rc, desc, name=None)]: the attribute pass,
    then the method pass, on the description itself. *)
Definition _modify_class_desc (sk : skipconf TypeMatcher) (desc : classdesc)
    (name_arg : option string) : run classdesc :=
  match select_skips sk name_arg with
  | Raise e => ([], desc, Some e)
  | Ok skips =>
      let '(tr1, attrs', o1) := attrs_loop skips (attrs desc) (attrs desc) in
      match o1 with
      | Some e => (tr1, new_classdesc (name desc) attrs' (methods desc), Some e)
      | None =>
          let '(tr2, methods', o2) :=
            methods_loop skips (methods desc) (methods desc) in
          (tr1 ++ tr2, new_classdesc (name desc) attrs' methods', o2)
      end
  end.

(** [for key, v in d.items(): <body mutating v in place>]: the values are
    visited in order and the first exception ends the loop. *)
Fixpoint for_values {K V : Type} (body : V -> run V) (d : dict K V)
  : run (dict K V) :=
  match d with
  | [] => ([], [], None)
  | (k, v) :: rest =>
      let '(tr, v', o) := body v in
      match o with
      | Some e => (tr, (k, v') :: rest, Some e)
      | None =>
          let '(tr', rest', o') := for_values body rest in
          (tr ++ tr', (k, v') :: rest', o')
      end
  end.

(** The body of the loops over [mod.items()] / [mod.values()]. *)
Definition visit_desc (sk : skipconf TypeMatcher) (by_name : bool) (d : desc)
  : run desc :=
  match d with
  | ClassDesc c =>
      if by_name then
        match sk with
        | SkipDict skip_classes =>
            if dict_mem String.eqb (name c) skip_classes then
              let '(tr, c', o) := _modify_class_desc sk c (Some (name c)) in
              (tr, ClassDesc c', o)
            else ([], d, None)
        | _ => ([], d, None)
        end
      else
        let '(tr, c', o) := _modify_class_desc sk c None in
        (tr, ClassDesc c', o)
  | OtherDesc _ => ([], d, None)
  end.

(** [[
    def execute(self, rc):
        if not isinstance(rc.skiptypes, NotSpecified):
            if isinstance(rc.skiptypes, dict):
                skip_classes = rc.skiptypes.keys()
                for mod_key, mod in rc.env.items():
                    for kls_key, desc in mod.items():
                        if isclassdesc(desc):
                            if desc['name'] in skip_classes:
                                rc.env[mod_key][kls_key] = \
                                    self._modify_class_desc(rc, desc, name=desc['name'])
            elif isinstance(rc.skiptypes, list):
                for mod in rc.env.values():
                    for desc in mod.values():
                        if isclassdesc(desc):
                            self._modify_class_desc(rc, desc)
    ]] *)
Definition execute (rc : RunControl TypeMatcher) : run (RunControl TypeMatcher) :=
  match skiptypes rc with
  | NotSpecified => ([], rc, None)
  | SkipDict _ =>
      let '(tr, env', o) :=
        for_values (for_values (visit_desc (skiptypes rc) true)) (env rc) in
      (tr, new_rc (skiptypes rc) env', o)
  | SkipList _ =>
      let '(tr, env', o) :=
        for_values (for_values (visit_desc (skiptypes rc) false)) (env rc) in
      (tr, new_rc (skiptypes rc) env', o)
  | SkipNone | SkipTuple _ => ([], rc, None)
  end.

End Engine.

(** ** Sample collaborators *)

Module Samples.

(** Modelled from the spec: an Exact Matcher that compares the candidate
    with its pattern structurally and never raises. *)
Definition exact_matches (tm : TypeMatcher) (t : pyval) : res bool :=
  Ok (pyval_eqb (pattern tm) t).

(** A matcher that fails on shapes it does not understand: an identifier
    pattern against a composite, and a composite pattern against an atom
    that has no length. *)
Definition strict_matches (tm : TypeMatcher) (t : pyval) : res bool :=
  match pattern tm, t with
  | VStr _, (VTuple _ | VList _) => Raise TypeError
  | (VTuple _ | VList _), (VNone | VInt _) => Raise TypeError
  | p, _ => Ok (pyval_eqb p t)
  end.

Open Scope string_scope.

Definition float64 : pyval := VStr "float64".
Definition int32 : pyval := VStr "int32".

(** [(('vector', 'float64', 'const'), '&')] *)
Definition vector_ref : pyval :=
  VTuple [VTuple [VStr "vector"; float64; VStr "const"]; VStr "&"].

(** [(('int32', 'const'), '&')] *)
Definition int32_cref : pyval := VTuple [VTuple [int32; VStr "const"]; VStr "&"].

(** [('vector', 'int32', 0)] *)
Definition vector_int : pyval := VTuple [VStr "vector"; int32; VInt 0].

Definition Blah : classdesc :=
  new_classdesc "Blah"
    [("x", float64); ("n", int32)]
    [(new_method_key "f" [new_arg "n" int32 None], vector_ref);
     (new_method_key "g" [new_arg "a" int32 None; new_arg "b" (VStr "classA") None], int32);
     (new_method_key "h" [new_arg "v" vector_int None], VStr "void")].

Definition model : environ :=
  [("mod", [("Blah", ClassDesc Blah); ("foo", OtherDesc (VStr "function"))])].

(** A matcher that compares identifiers and raises [ValueError] on any
    candidate that is not one. *)
Definition identifier_matches (tm : TypeMatcher) (t : pyval) : res bool :=
  match t with
  | VStr _ => Ok (pyval_eqb (pattern tm) t)
  | _ => Raise (OtherError "ValueError")
  end.

End Samples.

(** ** Vocabulary of the statements *)

(** The items of a composite. *)
Definition children (v : pyval) : list pyval :=
  match v with
  | VTuple l | VList l => l
  | _ => []
  end.

(** [nested x c]: [x] is an element of [c] at some depth. *)
Inductive nested (x : pyval) : pyval -> Prop :=
| nested_child c : In x (children c) -> nested x c
| nested_deeper c y : In y (children c) -> nested x y -> nested x c.

(** The elements that are neither tuples nor lists, depth first, left to
    right. *)
Fixpoint atoms (v : pyval) : list pyval :=
  match v with
  | VTuple l | VList l => flat_map atoms l
  | _ => [v]
  end.

(** A value in which [_flatten] finds at least one element: a [str] with a
    character, or a tuple or list with an atom at some depth. *)
Definition has_element (v : pyval) : bool :=
  match v with
  | VStr s => negb (String.eqb s EmptyString)
  | VTuple _ | VList _ =>
      match atoms v with
      | [] => false
      | _ :: _ => true
      end
  | VNone | VInt _ => false
  end.

(** [d'] is [d] with some entries removed. *)
Inductive subdict {K V : Type} : dict K V -> dict K V -> Prop :=
| subdict_nil : subdict [] []
| subdict_keep kv d' d : subdict d' d -> subdict (kv :: d') (kv :: d)
| subdict_drop kv d' d : subdict d' d -> subdict d' (kv :: d).

Definition run_trace {S : Type} (r : run S) : trace := fst (fst r).
Definition run_state {S : Type} (r : run S) : S := snd (fst r).
Definition run_exn {S : Type} (r : run S) : option exn := snd r.

(** Whether a sequence of tests ended on a true one. *)
Definition is_hit (r : trace * res bool) : bool :=
  match snd r with
  | Ok true => true
  | _ => false
  end.

Section Reference.

Variable matches : TypeMatcher -> pyval -> res bool.

(** A test is one evaluation [tm._match_anywhere(t)].  [first_match] runs
    tests in order and stops at the first that is true or raises. *)
Fixpoint first_match (tests : list (TypeMatcher * pyval)) : trace * res bool :=
  match tests with
  | [] => ([], Ok false)
  | (tm, t) :: rest =>
      let '(tr, r) := _match_anywhere matches tm t in
      match r with
      | Raise e => (tr, Raise e)
      | Ok v =>
          if truthy v then (tr, Ok true)
          else let '(tr', r') := first_match rest in (tr ++ tr', r')
      end
  end.

(** One type against every matcher, in the order of the list. *)
Definition tests_on (skips : list TypeMatcher) (t : pyval)
  : list (TypeMatcher * pyval) :=
  map (fun tm => (tm, t)) skips.

Definition attr_tests (skips : list TypeMatcher) (a : string * pyval)
  : list (TypeMatcher * pyval) :=
  tests_on skips (snd a).

(** The types of a method in the order the pass looks at them: the return
    type, then the type of each parameter. *)
Definition method_types (m : method_key * pyval) : list pyval :=
  snd m :: map arg_type (m_args (fst m)).

Definition method_tests (skips : list TypeMatcher) (m : method_key * pyval)
  : list (TypeMatcher * pyval) :=
  flat_map (tests_on skips) (method_types m).

(** One visit of every entry, in order: an entry with a true test is
    dropped, the others are kept, and an exception leaves the entry that
    raised it and all later ones in place. *)
Fixpoint prune {K : Type} (tests : K * pyval -> list (TypeMatcher * pyval))
    (d : dict K pyval) : run (dict K pyval) :=
  match d with
  | [] => ([], [], None)
  | kv :: rest =>
      let '(tr, r) := first_match (tests kv) in
      match r with
      | Raise e => (tr, kv :: rest, Some e)
      | Ok hit =>
          let '(tr', rest', o) := prune tests rest in
          (tr ++ tr', if hit then rest' else kv :: rest', o)
      end
  end.

(** What the innermost loop does with the outcome of its tests. *)
Definition settle {K : Type} (eqb : K -> K -> bool) (r : trace * res bool)
    (key : K) (d : dict K pyval) : run (dict K pyval * bool) :=
  match r with
  | (tr, Raise e) => (tr, (d, false), Some e)
  | (tr, Ok false) => (tr, (d, false), None)
  | (tr, Ok true) =>
      match dict_del eqb key d with
      | Ok d' => (tr, (d', true), None)
      | Raise e => (tr, (d, false), Some e)
      end
  end.

(** The shape shared by the attribute loop and the method loop: every
    entry of the snapshot is settled against the live dictionary. *)
Fixpoint settle_loop {K : Type} (eqb : K -> K -> bool)
    (tests : K * pyval -> list (TypeMatcher * pyval))
    (snapshot : list (K * pyval)) (d : dict K pyval) : run (dict K pyval) :=
  match snapshot with
  | [] => ([], d, None)
  | kv :: rest =>
      let '(tr, (d1, _), o) := settle eqb (first_match (tests kv)) (fst kv) d in
      match o with
      | Some e => (tr, d1, Some e)
      | None =>
          let '(tr', d', o') := settle_loop eqb tests rest d1 in
          (tr ++ tr', d', o')
      end
  end.

End Reference.

(** Key uniqueness at every level of the model. *)
Definition class_wf (c : classdesc) : Prop :=
  dict_wf (attrs c) /\ dict_wf (methods c).

Definition desc_wf (d : desc) : Prop :=
  match d with
  | ClassDesc c => class_wf c
  | OtherDesc _ => True
  end.

Definition module_wf (m : module) : Prop :=
  dict_wf m /\ Forall (fun kv => desc_wf (snd kv)) m.

Definition env_wf (e : environ) : Prop :=
  dict_wf e /\ Forall (fun kv => module_wf (snd kv)) e.

(** A description after the pass: the same entity, where a class may have
    lost attributes and methods and nothing else. *)
Definition desc_pruned (d d' : desc) : Prop :=
  match d, d' with
  | ClassDesc c, ClassDesc c' =>
      name c' = name c
      /\ subdict (attrs c') (attrs c)
      /\ subdict (methods c') (methods c)
  | OtherDesc b, OtherDesc b' => b' = b
  | _, _ => False
  end.

(** Same keys in the same order, values related by [R]. *)
Definition same_keys {K V : Type} (R : V -> V -> Prop) (d d' : dict K V) : Prop :=
  Forall2 (fun kv kv' => fst kv' = fst kv /\ R (snd kv) (snd kv')) d d'.

Definition env_pruned (e e' : environ) : Prop :=
  same_keys (same_keys desc_pruned) e e'.

(** An exclusion configuration that is absent or empty: the unset sentinel,
    [None], or an empty dictionary, list or tuple. *)
Definition conf_is_empty (sk : skipconf pyval) : bool :=
  match sk with
  | NotSpecified | SkipNone => true
  | SkipDict [] => true
  | SkipList [] | SkipTuple [] => true
  | _ => false
  end.

(** A description that a per-class configuration does not address: anything
    but a class whose name is a key of the dictionary. *)
Definition untouched_by (skip_classes : dict string (list TypeMatcher))
    (d : desc) : Prop :=
  match d with
  | ClassDesc c => dict_mem String.eqb (name c) skip_classes = false
  | OtherDesc _ => True
  end.

(** [k] is the name of a class of the model. *)
Definition names_class (k : string) (e : environ) : Prop :=
  exists mod_key m kls_key c,
    In (mod_key, m) e /\ In (kls_key, ClassDesc c) m /\ name c = k.

(** * Properties *)

(** ** Equality tests decide equality *)

Lemma list_eqb_eq (A : Type) (f : A -> A -> bool) (l : list A) :
  Forall (fun x => forall y, f x y = true <-> x = y) l ->
  forall m, list_eqb f l m = true <-> l = m.
Proof.
  induction 1 as [|x l Hx _ IH]; intros [|y m]; simpl;
    try (split; [discriminate | discriminate]); try tauto.
  rewrite andb_true_iff, Hx, IH. split.
  - intros [-> ->]. reflexivity.
  - intros E. injection E. auto.
Qed.

Lemma pyval_eqb_items (l m : list pyval) :
  pyval_eqb (VTuple l) (VTuple m) = list_eqb pyval_eqb l m
  /\ pyval_eqb (VList l) (VList m) = list_eqb pyval_eqb l m.
Proof.
  revert m. induction l as [|x l IH]; intros [|y m]; simpl; auto.
  destruct (IH m) as [E1 E2]. simpl in E1, E2.
  split; f_equal; assumption.
Qed.

Lemma pyval_eqb_eq (a b : pyval) : pyval_eqb a b = true <-> a = b.
Proof.
  revert b. induction a using pyval_nested_ind; intros b.
  - destruct b; simpl; split; congruence.
  - destruct b; simpl; try (split; congruence).
    rewrite Z.eqb_eq. split; congruence.
  - destruct b; simpl; try (split; congruence).
    rewrite String.eqb_eq. split; congruence.
  - destruct b as [| | |m|m]; try (simpl; split; congruence).
    destruct (pyval_eqb_items l m) as [-> _].
    rewrite (list_eqb_eq pyval_eqb H). split; congruence.
  - destruct b as [| | |m|m]; try (simpl; split; congruence).
    destruct (pyval_eqb_items l m) as [_ ->].
    rewrite (list_eqb_eq pyval_eqb H). split; congruence.
Qed.

Lemma option_eqb_eq (A : Type) (f : A -> A -> bool) :
  (forall x y, f x y = true <-> x = y) ->
  forall a b, option_eqb f a b = true <-> a = b.
Proof.
  intros Hf [x|] [y|]; simpl; try (split; congruence).
  rewrite Hf. split; congruence.
Qed.

Lemma arg_eqb_eq (a b : arg) : arg_eqb a b = true <-> a = b.
Proof.
  destruct a as [n t d], b as [n' t' d']. unfold arg_eqb. simpl.
  rewrite !andb_true_iff, String.eqb_eq, pyval_eqb_eq,
    (option_eqb_eq pyval_eqb pyval_eqb_eq).
  split.
  - intros [[-> ->] ->]. reflexivity.
  - intros E. injection E. auto.
Qed.

Lemma method_key_eqb_eq (a b : method_key) : method_key_eqb a b = true <-> a = b.
Proof.
  destruct a as [n l], b as [n' l']. unfold method_key_eqb. simpl.
  rewrite andb_true_iff, String.eqb_eq, list_eqb_eq.
  - split.
    + intros [-> ->]. reflexivity.
    + intros E. injection E. auto.
  - apply Forall_forall. intros x _ y. apply arg_eqb_eq.
Qed.

(** ** [_flatten] *)

Lemma flatten_composite (v : pyval) :
  is_list_or_tuple v = true -> _flatten v = VList (atoms v).
Proof.
  induction v as [| | |l IH|l IH] using pyval_nested_ind; try discriminate;
    intros _; simpl;
    match goal with
    | |- match ?loop l with _ => _ end = _ =>
        assert (E : loop l = Ok (flat_map atoms l))
    end.
  1, 3: induction IH as [|x l Hx _ IHl]; [reflexivity|];
    simpl; simpl in IHl; rewrite IHl;
    destruct (is_list_or_tuple x) eqn:Ex;
    [ rewrite (Hx eq_refl); reflexivity
    | destruct x; try discriminate; reflexivity ].
  all: rewrite E; reflexivity.
Qed.

Lemma atoms_of_atom (x : pyval) : is_list_or_tuple x = false -> atoms x = [x].
Proof. destruct x; simpl; congruence. Qed.

Lemma nested_atoms (x c : pyval) :
  nested x c -> is_list_or_tuple x = false -> In x (atoms c).
Proof.
  intros N Hx. induction N as [c Hin|c y Hin _ IH].
  - destruct c; simpl in *; try contradiction;
      apply in_flat_map; exists x; rewrite (atoms_of_atom x Hx); simpl; auto.
  - destruct c; simpl in *; try contradiction;
      apply in_flat_map; exists y; auto.
Qed.

Lemma atoms_nested (v x : pyval) :
  In x (atoms v) -> is_list_or_tuple x = false /\ (x = v \/ nested x v).
Proof.
  induction v as [| | |l IH|l IH] using pyval_nested_ind; simpl;
    try (intros [<-|[]]; auto).
  all: intros Hin; apply in_flat_map in Hin; destruct Hin as [y [Hy Hxy]];
    rewrite Forall_forall in IH; destruct (IH y Hy Hxy) as [Hx [->|N]];
    (split; [exact Hx | right]);
    [ apply nested_child; exact Hy
    | apply nested_deeper with y; [exact Hy | exact N] ].
Qed.

(** ** [_match_anywhere] *)

Section MatchingFacts.

Variable matches : TypeMatcher -> pyval -> res bool.

Lemma matches_each_calls (self : TypeMatcher) (leaves : list pyval) :
  forall tm t, In (tm, t) (fst (matches_each matches self leaves)) ->
               tm = self /\ In t leaves.
Proof.
  induction leaves as [|i rest IH]; simpl; [contradiction|].
  intros tm t. destruct (matches self i) as [b|e]; simpl.
  - destruct (matches_each matches self rest) as [tr r]. simpl in *.
    intros [E|Hin].
    + inversion E. auto.
    + destruct (IH tm t Hin). auto.
  - intros [E|[]]. inversion E. auto.
Qed.

Lemma matches_each_total (self : TypeMatcher) (leaves : list pyval) :
  (forall i, In i leaves -> exists b, matches self i = Ok b) ->
  exists bs, snd (matches_each matches self leaves) = Ok bs
    /\ forall i, In i leaves -> matches self i = Ok true -> any bs = true.
Proof.
  induction leaves as [|i rest IH]; intros Htot; simpl.
  - exists []. split; [reflexivity | contradiction].
  - destruct (Htot i (or_introl eq_refl)) as [b Hb]. rewrite Hb.
    destruct IH as [bs [E Hany]]; [intros j Hj; apply Htot; right; exact Hj|].
    destruct (matches_each matches self rest) as [tr r]. simpl in *. subst r.
    exists (b :: bs). split; [reflexivity|].
    intros j [<-|Hj] Hm; simpl.
    + rewrite Hb in Hm. injection Hm as ->. reflexivity.
    + rewrite (Hany j Hj Hm). apply orb_true_r.
Qed.

(** After a [TypeError] of the call on the whole candidate nothing else is
    evaluated and the function returns [None]. *)
Lemma match_anywhere_after_TypeError (self : TypeMatcher) (t : pyval) :
  matches self t = Raise TypeError ->
  _match_anywhere matches self t = ([(self, t)], Ok None).
Proof. intros E. unfold _match_anywhere. rewrite E. reflexivity. Qed.

Lemma match_anywhere_composite (self : TypeMatcher) (c : pyval) :
  is_list_or_tuple c = true ->
  matches self c = Ok false ->
  _match_anywhere matches self c =
    (let '(tr, r) := matches_each matches self (atoms c) in
     ((self, c) :: tr,
      match r with
      | Ok bs => Ok (Some (any bs))
      | Raise e => Raise e
      end)).
Proof.
  intros Hc E. unfold _match_anywhere. rewrite E.
  rewrite (flatten_composite c Hc), Hc.
  destruct c; try discriminate; reflexivity.
Qed.

End MatchingFacts.

(** ** The loops of [_modify_class_desc] *)

Section DictFacts.
Variables (K V : Type) (eqb : K -> K -> bool).
Hypothesis eqb_eq : forall a b, eqb a b = true <-> a = b.

Lemma dict_del_middle (k : K) (v : V) (pre rest : dict K V) :
  ~ In k (keys pre) ->
  dict_del eqb k (pre ++ (k, v) :: rest) = Ok (pre ++ rest).
Proof.
  induction pre as [|[k' v'] pre IH]; simpl; intros Hk.
  - destruct (eqb k k) eqn:E; [reflexivity|].
    assert (eqb k k = true) by (apply eqb_eq; reflexivity). congruence.
  - destruct (eqb k' k) eqn:E.
    + apply eqb_eq in E. tauto.
    + rewrite IH by tauto. reflexivity.
Qed.
End DictFacts.

Lemma subdict_refl (K V : Type) (d : dict K V) : subdict d d.
Proof. induction d; constructor; assumption. Qed.

Lemma subdict_trans (K V : Type) (a b c : dict K V) :
  subdict a b -> subdict b c -> subdict a c.
Proof.
  intros Hab Hbc. revert a Hab.
  induction Hbc as [|kv b c _ IH|kv b c _ IH]; intros a Hab.
  - exact Hab.
  - inversion Hab; subst; constructor; auto.
  - constructor. auto.
Qed.

Lemma subdict_app (K V : Type) (pre d' d : dict K V) :
  subdict d' d -> subdict (pre ++ d') (pre ++ d).
Proof. intros H. induction pre; simpl; [exact H | constructor; assumption]. Qed.

Lemma subdict_In (K V : Type) (d' d : dict K V) :
  subdict d' d -> forall kv, In kv d' -> In kv d.
Proof.
  induction 1; simpl; intros x Hx; auto.
  destruct Hx; auto.
Qed.

Lemma subdict_wf (K V : Type) (d' d : dict K V) :
  subdict d' d -> dict_wf d -> dict_wf d'.
Proof.
  unfold dict_wf, keys. induction 1 as [|kv d' d S IH|kv d' d S IH]; simpl; intros Hwf.
  - exact Hwf.
  - inversion Hwf as [|? ? Hn Hd]; subst. constructor; [|auto].
    intros Hin. apply Hn. apply in_map_iff in Hin. destruct Hin as [x [Ex Hx]].
    apply in_map_iff. exists x. split; [exact Ex|]. eapply subdict_In; eauto.
  - inversion Hwf; subst. auto.
Qed.

Section LoopFacts.

Variable matches : TypeMatcher -> pyval -> res bool.

Lemma first_match_app (a b : list (TypeMatcher * pyval)) :
  first_match matches (a ++ b) =
    match first_match matches a with
    | (tr, Ok false) =>
        let '(tr', r') := first_match matches b in (tr ++ tr', r')
    | r => r
    end.
Proof.
  induction a as [|[tm t] a IH]; simpl.
  - destruct (first_match matches b). reflexivity.
  - destruct (_match_anywhere matches tm t) as [tr [v|e]]; [|reflexivity].
    destruct (truthy v); [reflexivity|].
    rewrite IH. destruct (first_match matches a) as [tr1 [[|]|e]]; try reflexivity.
    destruct (first_match matches b) as [tr2 r2]. rewrite app_assoc. reflexivity.
Qed.

Lemma settle_prefix (K : Type) (eqb : K -> K -> bool) (tr tr' : trace)
    (r : res bool) (key : K) (d : dict K pyval) :
  settle eqb (tr ++ tr', r) key d =
    (let '(tr2, s, o) := settle eqb (tr', r) key d in (tr ++ tr2, s, o)).
Proof.
  unfold settle. destruct r as [[|]|e]; try reflexivity.
  destruct (dict_del eqb key d); reflexivity.
Qed.

Lemma delete_on_match_settle (K : Type) (eqb : K -> K -> bool)
    (skips : list TypeMatcher) (t : pyval) (key : K) (d : dict K pyval) :
  delete_on_match matches eqb skips t key d =
    settle eqb (first_match matches (tests_on skips t)) key d.
Proof.
  induction skips as [|tm skips IH]; simpl; [reflexivity|].
  destruct (_match_anywhere matches tm t) as [tr [v|e]]; [|reflexivity].
  destruct (truthy v); [reflexivity|].
  rewrite IH. destruct (first_match matches (tests_on skips t)) as [tr' r'].
  rewrite settle_prefix.
  destruct (settle eqb (tr', r') key d) as [[tr2 s] o]. reflexivity.
Qed.

Lemma args_loop_settle (skips : list TypeMatcher) (args : list arg)
    (m_key : method_key) (d : dict method_key pyval) :
  args_loop matches skips args m_key d =
    settle method_key_eqb
      (first_match matches (flat_map (tests_on skips) (map arg_type args)))
      m_key d.
Proof.
  induction args as [|a args IH]; simpl; [reflexivity|].
  rewrite delete_on_match_settle, first_match_app.
  destruct (first_match matches (tests_on skips (arg_type a))) as [tr [[|]|e]];
    simpl; try reflexivity.
  - destruct (dict_del method_key_eqb m_key d); reflexivity.
  - rewrite IH.
    destruct (first_match matches (flat_map (tests_on skips) (map arg_type args)))
      as [tr' r'].
    rewrite settle_prefix.
    destruct (settle method_key_eqb (tr', r') m_key d) as [[tr2 s] o].
    reflexivity.
Qed.

Lemma attrs_loop_settle (skips : list TypeMatcher)
    (snapshot : list (string * pyval)) (d : dict string pyval) :
  attrs_loop matches skips snapshot d =
    settle_loop matches String.eqb (attr_tests skips) snapshot d.
Proof.
  revert d. induction snapshot as [|[k t] rest IH]; intros d; simpl; [reflexivity|].
  rewrite delete_on_match_settle. unfold attr_tests. simpl.
  destruct (settle String.eqb (first_match matches (tests_on skips t)) k d)
    as [[tr [d1 fl]] [e|]]; [reflexivity|].
  rewrite IH. reflexivity.
Qed.

Lemma methods_loop_settle (skips : list TypeMatcher)
    (snapshot : list (method_key * pyval)) (d : dict method_key pyval) :
  methods_loop matches skips snapshot d =
    settle_loop matches method_key_eqb (method_tests skips) snapshot d.
Proof.
  revert d. induction snapshot as [|[k t] rest IH]; intros d; simpl; [reflexivity|].
  rewrite delete_on_match_settle.
  change (method_tests skips (k, t))
    with (tests_on skips t
          ++ flat_map (tests_on skips) (map arg_type (m_args k))).
  rewrite first_match_app.
  destruct (first_match matches (tests_on skips t)) as [tr [[|]|e]]; simpl.
  - destruct (dict_del method_key_eqb k d) as [d'|e]; [|reflexivity].
    rewrite IH. reflexivity.
  - rewrite args_loop_settle.
    destruct (first_match matches
                (flat_map (tests_on skips) (map arg_type (m_args k)))) as [tr' r'].
    rewrite settle_prefix.
    destruct (settle method_key_eqb (tr', r') k d) as [[tr2 [d2 fl]] [e|]];
      [reflexivity|].
    rewrite IH.
    destruct (settle_loop matches method_key_eqb (method_tests skips) rest d2)
      as [[tr3 d3] o3].
    rewrite app_assoc. reflexivity.
  - reflexivity.
Qed.

Lemma settle_loop_prune (K : Type) (eqb : K -> K -> bool)
    (tests : K * pyval -> list (TypeMatcher * pyval)) :
  (forall a b, eqb a b = true <-> a = b) ->
  forall (snapshot pre : dict K pyval),
    dict_wf (pre ++ snapshot) ->
    settle_loop matches eqb tests snapshot (pre ++ snapshot) =
      (let '(tr, d', o) := prune matches tests snapshot in (tr, pre ++ d', o)).
Proof.
  intros eqb_eq. induction snapshot as [|[k v] rest IH]; intros pre Hwf; simpl.
  - reflexivity.
  - assert (Hk : ~ In k (keys pre) /\ dict_wf (pre ++ rest)).
    { unfold dict_wf, keys in *. rewrite map_app in *. simpl in Hwf.
      split.
      - apply NoDup_remove_2 in Hwf. intros Hin. apply Hwf.
        apply in_or_app. left. exact Hin.
      - apply NoDup_remove_1 in Hwf. exact Hwf. }
    destruct Hk as [Hk Hrest].
    destruct (first_match matches (tests (k, v))) as [tr [[|]|e]]; simpl.
    + rewrite (@dict_del_middle K pyval eqb eqb_eq k v pre rest Hk).
      rewrite (IH pre Hrest).
      destruct (prune matches tests rest) as [[tr' d'] o]. reflexivity.
    + assert (E : pre ++ (k, v) :: rest = (pre ++ [(k, v)]) ++ rest)
        by (rewrite <- app_assoc; reflexivity).
      rewrite E, IH by (rewrite <- E; exact Hwf).
      destruct (prune matches tests rest) as [[tr' d'] o].
      rewrite <- app_assoc. reflexivity.
    + reflexivity.
Qed.

End LoopFacts.

(** ** One visit of a dictionary *)

Section PruneFacts.

Variable matches : TypeMatcher -> pyval -> res bool.
Variable K : Type.
Variable tests : K * pyval -> list (TypeMatcher * pyval).

Lemma prune_subdict (d : dict K pyval) :
  subdict (run_state (prune matches tests d)) d.
Proof.
  unfold run_state. induction d as [|kv rest IH]; simpl; [constructor|].
  destruct (first_match matches (tests kv)) as [tr [hit|e]]; simpl.
  - destruct (prune matches tests rest) as [[tr' rest'] o]. simpl in *.
    destruct hit; constructor; exact IH.
  - apply subdict_refl.
Qed.

(** A second visit finds nothing to remove and ends the way the first did. *)
Lemma prune_settled (d : dict K pyval) :
  exists tr',
    prune matches tests (run_state (prune matches tests d)) =
      (tr', run_state (prune matches tests d), run_exn (prune matches tests d)).
Proof.
  unfold run_state, run_exn. induction d as [|kv rest IH]; simpl.
  - exists []. reflexivity.
  - destruct (first_match matches (tests kv)) as [tr [hit|e]] eqn:E; simpl.
    + destruct (prune matches tests rest) as [[tr1 rest'] o]. simpl in *.
      destruct IH as [tr2 IH]. destruct hit; simpl.
      * exists tr2. exact IH.
      * rewrite E, IH. exists (tr ++ tr2). reflexivity.
    + rewrite E. exists tr. reflexivity.
Qed.

Lemma prune_no_tests (d : dict K pyval) :
  (forall kv, first_match matches (tests kv) = ([], Ok false)) ->
  prune matches tests d = ([], d, None).
Proof.
  intros H. induction d as [|kv rest IH]; simpl; [reflexivity|].
  rewrite H, IH. reflexivity.
Qed.

(** A visit that raises nothing has examined every entry once, in order,
    and kept exactly the entries without a true test. *)
Lemma prune_completed (d : dict K pyval) :
  run_exn (prune matches tests d) = None ->
  run_trace (prune matches tests d) =
    flat_map (fun kv => fst (first_match matches (tests kv))) d
  /\ run_state (prune matches tests d) =
    filter (fun kv => negb (is_hit (first_match matches (tests kv)))) d.
Proof.
  unfold run_exn, run_trace, run_state, is_hit.
  induction d as [|kv rest IH]; simpl; [auto|].
  destruct (first_match matches (tests kv)) as [tr [hit|e]]; simpl;
    [|discriminate].
  destruct (prune matches tests rest) as [[tr' rest'] o]. simpl in *.
  intros Ho. destruct (IH Ho) as [-> ->]. destruct hit; auto.
Qed.

End PruneFacts.

Section SettleFacts.

Variable matches : TypeMatcher -> pyval -> res bool.
Variables (K : Type) (eqb : K -> K -> bool).

Lemma dict_del_subdict (V : Type) (k : K) (d d' : dict K V) :
  dict_del eqb k d = Ok d' -> subdict d' d.
Proof.
  revert d'. induction d as [|[k' v] rest IH]; simpl; intros d' E; [discriminate|].
  destruct (eqb k' k).
  - injection E as <-. constructor. apply subdict_refl.
  - destruct (dict_del eqb k rest) as [r|e]; [|discriminate].
    injection E as <-. constructor. auto.
Qed.

Lemma settle_subdict (r : trace * res bool) (key : K) (d : dict K pyval) :
  subdict (fst (run_state (settle eqb r key d))) d.
Proof.
  unfold run_state, settle. destruct r as [tr [[|]|e]]; simpl;
    try apply subdict_refl.
  destruct (dict_del eqb key d) as [d'|e] eqn:E; simpl.
  - eapply dict_del_subdict; eauto.
  - apply subdict_refl.
Qed.

(** Whatever the keys look like, the loops only ever remove entries. *)
Lemma settle_loop_subdict (tests : K * pyval -> list (TypeMatcher * pyval))
    (snapshot d : dict K pyval) :
  subdict (run_state (settle_loop matches eqb tests snapshot d)) d.
Proof.
  revert d. induction snapshot as [|kv rest IH]; intros d; simpl.
  - apply subdict_refl.
  - pose proof (settle_subdict (first_match matches (tests kv)) (fst kv) d) as S.
    destruct (settle eqb (first_match matches (tests kv)) (fst kv) d)
      as [[tr [d1 fl]] [e|]]; unfold run_state in *; simpl in *.
    + exact S.
    + specialize (IH d1).
      destruct (settle_loop matches eqb tests rest d1) as [[tr' d'] o'].
      simpl in *. eapply subdict_trans; eauto.
Qed.

End SettleFacts.

(** ** Traversals *)

Section TraversalFacts.

Variables (K V : Type).

Lemma for_values_same_keys (R : V -> V -> Prop) (body : V -> run V) :
  (forall v, R v v) ->
  (forall v, R v (run_state (body v))) ->
  forall d : dict K V, same_keys R d (run_state (for_values body d)).
Proof.
  intros Hrefl Hbody. unfold same_keys, run_state.
  assert (Hid : forall d : dict K V,
             Forall2 (fun kv kv' => fst kv' = fst kv /\ R (snd kv) (snd kv')) d d).
  { induction d; constructor; auto. }
  induction d as [|[k v] rest IH]; simpl; [constructor|].
  pose proof (Hbody v) as Hv. unfold run_state in Hv.
  destruct (body v) as [[tr v'] [e|]]; simpl in *.
  - constructor; [simpl; auto | apply Hid].
  - destruct (for_values body rest) as [[tr' rest'] o']. simpl in *.
    constructor; [simpl; auto | exact IH].
Qed.

Lemma for_values_settled (P : V -> Prop) (body : V -> run V) :
  (forall v, P v ->
     exists tr', body (run_state (body v)) =
                   (tr', run_state (body v), run_exn (body v))) ->
  forall d : dict K V,
    Forall (fun kv => P (snd kv)) d ->
    exists tr',
      for_values body (run_state (for_values body d)) =
        (tr', run_state (for_values body d), run_exn (for_values body d)).
Proof.
  intros Hbody. unfold run_state, run_exn in *.
  induction d as [|[k v] rest IH]; simpl; intros Hd.
  - exists []. reflexivity.
  - inversion Hd as [|? ? Hv Hrest]; subst. simpl in Hv.
    destruct (Hbody v Hv) as [tr1 E1].
    destruct (body v) as [[tr v'] [e|]]; simpl in *.
    + rewrite E1. exists tr1. reflexivity.
    + destruct (IH Hrest) as [tr2 E2].
      destruct (for_values body rest) as [[tr' rest'] o']. simpl in *.
      rewrite E1, E2. exists (tr1 ++ tr2). reflexivity.
Qed.

Lemma for_values_ext (body1 body2 : V -> run V) (d : dict K V) :
  (forall kv, In kv d -> body1 (snd kv) = body2 (snd kv)) ->
  for_values body1 d = for_values body2 d.
Proof.
  induction d as [|[k v] rest IH]; simpl; intros H; [reflexivity|].
  pose proof (H (k, v) (or_introl eq_refl)) as E. simpl in E. rewrite E.
  rewrite IH by (intros kv Hkv; apply H; right; exact Hkv). reflexivity.
Qed.

Lemma for_values_id (body : V -> run V) (d : dict K V) :
  (forall kv, In kv d -> body (snd kv) = ([], snd kv, None)) ->
  for_values body d = ([], d, None).
Proof.
  induction d as [|[k v] rest IH]; simpl; intros H; [reflexivity|].
  pose proof (H (k, v) (or_introl eq_refl)) as E. simpl in E. rewrite E.
  rewrite IH by (intros kv Hkv; apply H; right; exact Hkv). reflexivity.
Qed.

End TraversalFacts.

(** ** [_modify_class_desc] *)

Section ClassFacts.

Variable matches : TypeMatcher -> pyval -> res bool.

Lemma attrs_loop_prune (skips : list TypeMatcher) (d : dict string pyval) :
  dict_wf d ->
  attrs_loop matches skips d d = prune matches (attr_tests skips) d.
Proof.
  intros Hwf. rewrite attrs_loop_settle.
  pose proof (@settle_loop_prune matches string String.eqb (attr_tests skips)
                String.eqb_eq d [] Hwf) as E.
  cbn [app] in E. rewrite E.
  destruct (prune matches (attr_tests skips) d) as [[tr d'] o]. reflexivity.
Qed.

Lemma methods_loop_prune (skips : list TypeMatcher) (d : dict method_key pyval) :
  dict_wf d ->
  methods_loop matches skips d d = prune matches (method_tests skips) d.
Proof.
  intros Hwf. rewrite methods_loop_settle.
  pose proof (@settle_loop_prune matches method_key method_key_eqb
                (method_tests skips) method_key_eqb_eq d [] Hwf) as E.
  cbn [app] in E. rewrite E.
  destruct (prune matches (method_tests skips) d) as [[tr d'] o]. reflexivity.
Qed.

Lemma modify_class_pruned (sk : skipconf TypeMatcher) (c : classdesc)
    (n : option string) :
  desc_pruned (ClassDesc c)
    (ClassDesc (run_state (_modify_class_desc matches sk c n))).
Proof.
  unfold _modify_class_desc, run_state. simpl.
  destruct (select_skips sk n) as [skips|e]; simpl.
  - pose proof (settle_loop_subdict matches String.eqb (attr_tests skips)
                  (attrs c) (attrs c)) as Ha.
    rewrite <- attrs_loop_settle in Ha. unfold run_state in Ha.
    destruct (attrs_loop matches skips (attrs c) (attrs c)) as [[tr1 a'] [e|]];
      simpl in *.
    + repeat split; [exact Ha | apply subdict_refl].
    + pose proof (settle_loop_subdict matches method_key_eqb (method_tests skips)
                    (methods c) (methods c)) as Hm.
      rewrite <- methods_loop_settle in Hm. unfold run_state in Hm.
      destruct (methods_loop matches skips (methods c) (methods c))
        as [[tr2 m'] o2]; simpl in *.
      repeat split; assumption.
  - repeat split; apply subdict_refl.
Qed.

Lemma modify_class_settled (sk : skipconf TypeMatcher) (c : classdesc)
    (n : option string) :
  class_wf c ->
  exists tr',
    _modify_class_desc matches sk (run_state (_modify_class_desc matches sk c n)) n =
      (tr', run_state (_modify_class_desc matches sk c n),
       run_exn (_modify_class_desc matches sk c n)).
Proof.
  intros [Wa Wm]. unfold _modify_class_desc, run_state, run_exn.
  destruct (select_skips sk n) as [skips|e]; simpl.
  - rewrite (attrs_loop_prune skips Wa).
    pose proof (prune_subdict matches (attr_tests skips) (attrs c)) as Sa.
    destruct (prune_settled matches (attr_tests skips) (attrs c)) as [ta Ea].
    unfold run_state, run_exn in *.
    destruct (prune matches (attr_tests skips) (attrs c)) as [[tr1 a'] [e|]];
      simpl in *.
    + rewrite (attrs_loop_prune skips (subdict_wf Sa Wa)), Ea.
      exists ta. reflexivity.
    + rewrite (methods_loop_prune skips Wm).
      pose proof (prune_subdict matches (method_tests skips) (methods c)) as Sm.
      destruct (prune_settled matches (method_tests skips) (methods c)) as [tm Em].
      unfold run_state, run_exn in *.
      destruct (prune matches (method_tests skips) (methods c)) as [[tr2 m'] o2];
        simpl in *.
      rewrite (attrs_loop_prune skips (subdict_wf Sa Wa)), Ea.
      rewrite (methods_loop_prune skips (subdict_wf Sm Wm)), Em.
      exists (ta ++ tm). reflexivity.
  - exists []. reflexivity.
Qed.

End ClassFacts.

(** ** [execute] *)

Section ExecuteFacts.

Variable matches : TypeMatcher -> pyval -> res bool.

Lemma desc_pruned_refl (d : desc) : desc_pruned d d.
Proof.
  destruct d; simpl; [|reflexivity].
  repeat split; apply subdict_refl.
Qed.

Lemma visit_desc_pruned (sk : skipconf TypeMatcher) (by_name : bool) (d : desc) :
  desc_pruned d (run_state (visit_desc matches sk by_name d)).
Proof.
  destruct d as [c|b]; [|reflexivity].
  unfold visit_desc.
  assert (H : forall n,
             desc_pruned (ClassDesc c)
               (run_state (let '(tr, c', o) := _modify_class_desc matches sk c n in
                           (tr, ClassDesc c', o)))).
  { intros n. pose proof (modify_class_pruned matches sk c n) as P.
    unfold run_state in *.
    destruct (_modify_class_desc matches sk c n) as [[tr c'] o]. exact P. }
  destruct by_name; [|apply H].
  destruct sk; try apply desc_pruned_refl.
  destruct (dict_mem String.eqb (name c) d); [apply H | apply desc_pruned_refl].
Qed.

Lemma visit_desc_settled (sk : skipconf TypeMatcher) (by_name : bool) (d : desc) :
  desc_wf d ->
  exists tr',
    visit_desc matches sk by_name (run_state (visit_desc matches sk by_name d)) =
      (tr', run_state (visit_desc matches sk by_name d),
       run_exn (visit_desc matches sk by_name d)).
Proof.
  destruct d as [c|b]; intros Hwf; [|exists []; reflexivity].
  simpl in Hwf.
  assert (H : forall n,
    exists tr',
      (let '(tr, c', o) :=
         _modify_class_desc matches sk
           (run_state (_modify_class_desc matches sk c n)) n in
       (tr, ClassDesc c', o)) =
      (tr', ClassDesc (run_state (_modify_class_desc matches sk c n)),
       run_exn (_modify_class_desc matches sk c n))).
  { intros n. destruct (modify_class_settled matches sk n Hwf) as [tr' E].
    rewrite E. exists tr'. reflexivity. }
  assert (Hname : forall n,
             name (run_state (_modify_class_desc matches sk c n)) = name c).
  { intros n. apply (modify_class_pruned matches sk c n). }
  unfold visit_desc. destruct by_name.
  - destruct sk as [| |skip_classes|l|l]; try (exists []; reflexivity).
    destruct (dict_mem String.eqb (name c) skip_classes) eqn:Hmem.
    + destruct (H (Some (name c))) as [tr' E].
      specialize (Hname (Some (name c))).
      unfold run_state, run_exn in *.
      destruct (_modify_class_desc matches (SkipDict skip_classes) c
                  (Some (name c))) as [[tr c'] o].
      cbn [fst snd] in *. rewrite Hname, Hmem. exists tr'. exact E.
    + simpl. rewrite Hmem. exists []. reflexivity.
  - destruct (H None) as [tr' E].
    unfold run_state, run_exn in *.
    destruct (_modify_class_desc matches sk c None) as [[tr c'] o].
    cbn [fst snd] in *. exists tr'. exact E.
Qed.

Lemma same_keys_refl (K V : Type) (R : V -> V -> Prop) :
  (forall v, R v v) -> forall d : dict K V, same_keys R d d.
Proof. intros H d. induction d; constructor; auto. Qed.

Lemma walk_pruned (sk : skipconf TypeMatcher) (by_name : bool) (e : environ) :
  env_pruned e
    (run_state (for_values (for_values (visit_desc matches sk by_name)) e)).
Proof.
  apply for_values_same_keys.
  - intros m. apply same_keys_refl. apply desc_pruned_refl.
  - intros m. apply for_values_same_keys.
    + apply desc_pruned_refl.
    + apply visit_desc_pruned.
Qed.

Lemma walk_settled (sk : skipconf TypeMatcher) (by_name : bool) (e : environ) :
  env_wf e ->
  exists tr',
    for_values (for_values (visit_desc matches sk by_name))
      (run_state (for_values (for_values (visit_desc matches sk by_name)) e)) =
    (tr',
     run_state (for_values (for_values (visit_desc matches sk by_name)) e),
     run_exn (for_values (for_values (visit_desc matches sk by_name)) e)).
Proof.
  intros [_ Hwf].
  apply for_values_settled with (P := fun m : module => Forall (fun kv => desc_wf (snd kv)) m).
  - intros m Hm. apply for_values_settled with (P := desc_wf); [|exact Hm].
    intros d Hd. apply visit_desc_settled. exact Hd.
  - eapply Forall_impl; [|exact Hwf]. intros kv [_ H]. exact H.
Qed.

Lemma same_keys_keys (K V : Type) (R : V -> V -> Prop) (d d' : dict K V) :
  same_keys R d d' -> keys d' = keys d.
Proof.
  unfold keys. induction 1 as [|kv kv' d d' [E _] _ IH]; simpl; congruence.
Qed.

Lemma desc_pruned_wf (d d' : desc) : desc_pruned d d' -> desc_wf d -> desc_wf d'.
Proof.
  destruct d as [c|b], d' as [c'|b']; simpl; try tauto.
  intros [_ [Sa Sm]] [Wa Wm]. split; eapply subdict_wf; eauto.
Qed.

Lemma module_pruned_wf (m m' : module) :
  same_keys desc_pruned m m' -> module_wf m -> module_wf m'.
Proof.
  intros S [Wk Wd]. split.
  - exact (eq_ind_r (fun l => NoDup l) Wk (same_keys_keys S)).
  - clear Wk. induction S as [|kv kv' m m' [_ P] _ IH]; [constructor|].
    inversion Wd; subst. constructor; [|auto].
    eapply desc_pruned_wf; eauto.
Qed.

Lemma env_pruned_wf (e e' : environ) : env_pruned e e' -> env_wf e -> env_wf e'.
Proof.
  intros S [Wk Wm]. split.
  - exact (eq_ind_r (fun l => NoDup l) Wk (same_keys_keys S)).
  - clear Wk. induction S as [|kv kv' e e' [_ P] _ IH]; [constructor|].
    inversion Wm; subst. constructor; [|auto].
    eapply module_pruned_wf; eauto.
Qed.

Lemma execute_skiptypes (rc : RunControl TypeMatcher) :
  skiptypes (run_state (execute matches rc)) = skiptypes rc.
Proof.
  unfold execute, run_state.
  destruct (skiptypes rc) eqn:E; simpl; try exact E;
    match goal with
    | |- context [for_values ?f (env rc)] =>
        destruct (for_values f (env rc)) as [[tr e'] o]
    end; reflexivity.
Qed.

Lemma execute_pruned (rc : RunControl TypeMatcher) :
  env_pruned (env rc) (env (run_state (execute matches rc))).
Proof.
  assert (Hid : env_pruned (env rc) (env rc)).
  { apply same_keys_refl. intros m. apply same_keys_refl. apply desc_pruned_refl. }
  unfold execute.
  destruct (skiptypes rc) as [| |d|l|l]; try exact Hid.
  - pose proof (walk_pruned (SkipDict d) true (env rc)) as P.
    unfold run_state in *.
    destruct (for_values (for_values (visit_desc matches (SkipDict d) true))
                (env rc)) as [[tr e'] o]. exact P.
  - pose proof (walk_pruned (SkipList l) false (env rc)) as P.
    unfold run_state in *.
    destruct (for_values (for_values (visit_desc matches (SkipList l) false))
                (env rc)) as [[tr e'] o]. exact P.
Qed.

End ExecuteFacts.

(** * The claims *)

Import Samples.
Open Scope string_scope.
Open Scope list_scope.

(** ** Flattening *)

(** C2, as the code has it.  [_flatten] of a tuple or list is the list of its
    atoms, elements of nested tuples and lists included; [_flatten] of a
    [str] is the list of its one-character strings, which is the singleton
    [[t]] for a one-character [t]; the result is a non-empty list whenever the
    value has an element to find. *)
Theorem flatten_result (t : pyval) :
  (is_list_or_tuple t = true -> _flatten t = VList (atoms t))
  /\ (forall s, t = VStr s -> _flatten t = VList (chars s))
  /\ (forall c, t = VStr (String c EmptyString) -> _flatten t = VList [t])
  /\ (has_element t = true -> exists x rest, _flatten t = VList (x :: rest)).
Proof.
  split; [apply flatten_composite|].
  split; [intros s ->; reflexivity|].
  split; [intros c ->; reflexivity|].
  destruct t as [| |s|l|l]; cbv beta iota delta [has_element]; try discriminate.
  - destruct s as [|c s]; [discriminate|]. intros _.
    exists (VStr (String c EmptyString)), (chars s). reflexivity.
  - intros H. rewrite (flatten_composite (VTuple l) eq_refl).
    destruct (atoms (VTuple l)) as [|x rest]; [discriminate|]. eauto.
  - intros H. rewrite (flatten_composite (VList l) eq_refl).
    destruct (atoms (VList l)) as [|x rest]; [discriminate|]. eauto.
Qed.

Lemma flatten_result_witness :
  _flatten vector_ref = VList (atoms vector_ref)
  /\ exists x rest, _flatten float64 = VList (x :: rest).
Proof.
  split.
  - apply (flatten_result vector_ref). reflexivity.
  - apply (flatten_result float64). reflexivity.
Defined.

(** C2 as stated fails: the identifier ['float64'] flattens to its seven
    characters, not to [['float64']], and the empty tuple and the empty
    string flatten to the empty list. *)
Lemma flatten_leaf_counterexample :
  _flatten (VStr "float64") =
    VList [VStr "f"; VStr "l"; VStr "o"; VStr "a"; VStr "t"; VStr "6"; VStr "4"]
  /\ _flatten (VStr "float64") <> VList [VStr "float64"]
  /\ _flatten (VStr "") = VList []
  /\ _flatten (VTuple []) = VList [].
Proof. repeat split; try reflexivity. discriminate. Qed.

(** C10.  For a tuple or list [c], [_flatten] returns a list in which every
    string nested in [c] at any depth occurs whole, and which holds nothing
    but elements nested in [c] that are neither tuples nor lists; every call
    of [matches] that [_match_anywhere] makes on [c] is on [c] itself or on
    one of these elements. *)
Theorem flatten_keeps_identifiers_whole (c : pyval) :
  is_list_or_tuple c = true ->
  exists leaves,
    _flatten c = VList leaves
    /\ (forall s, nested (VStr s) c -> In (VStr s) leaves)
    /\ (forall x, In x leaves -> nested x c /\ is_list_or_tuple x = false)
    /\ (forall matches self tm t,
          In (tm, t) (fst (_match_anywhere matches self c)) ->
          tm = self /\ (t = c \/ In t leaves)).
Proof.
  intros Hc. exists (atoms c). split; [apply flatten_composite; exact Hc|].
  split; [intros s N; apply nested_atoms; [exact N | reflexivity]|].
  split.
  - intros x Hx. destruct (atoms_nested c x Hx) as [Ha [->|N]]; [congruence|auto].
  - intros matches self tm t. unfold _match_anywhere.
    destruct (matches self c) as [[|]|e] eqn:E.
    + intros [H|[]]. inversion H. auto.
    + replace (is_str c) with false by (destruct c; try discriminate; reflexivity).
      rewrite Hc, (flatten_composite c Hc). cbn [py_iter].
      pose proof (matches_each_calls matches self (atoms c) tm t) as Hcalls.
      destruct (matches_each matches self (atoms c)) as [tr r]. simpl in *.
      intros [H|H]; [inversion H; auto|].
      destruct (Hcalls H). auto.
    + destruct e; intros [H|[]]; inversion H; auto.
Qed.

Lemma flatten_keeps_identifiers_whole_witness :
  exists leaves,
    _flatten vector_ref = VList leaves
    /\ (forall s, nested (VStr s) vector_ref -> In (VStr s) leaves)
    /\ (forall x, In x leaves -> nested x vector_ref /\ is_list_or_tuple x = false)
    /\ (forall matches self tm t,
          In (tm, t) (fst (_match_anywhere matches self vector_ref)) ->
          tm = self /\ (t = vector_ref \/ In t leaves)).
Proof. apply (flatten_keeps_identifiers_whole vector_ref). reflexivity. Defined.

(** ** Matching anywhere *)

(** A list comprehension over [matches] raises what its first failing call
    raises. *)
Lemma matches_each_raises (matches : TypeMatcher -> pyval -> res bool)
    (self : TypeMatcher) (pre : list pyval) (x : pyval) (post : list pyval)
    (e : exn) :
  (forall i, In i pre -> exists b, matches self i = Ok b) ->
  matches self x = Raise e ->
  snd (matches_each matches self (pre ++ x :: post)) = Raise e.
Proof.
  intros Hpre Hx. induction pre as [|i pre IH]; simpl.
  - rewrite Hx. reflexivity.
  - destruct (Hpre i (or_introl eq_refl)) as [b ->].
    assert (IH' := IH (fun j Hj => Hpre j (or_intror Hj))).
    destruct (matches_each matches self (pre ++ x :: post)) as [tr r].
    simpl in *. rewrite IH'. reflexivity.
Qed.

(** C5, as the code has it.  Let [c] be a tuple or list that contains the
    identifier [L] at some depth, and let the matcher built from the pattern
    [L] accept [L].  If [matches] returns a boolean on [c] and on every
    flattened element of [c], then [_match_anywhere] returns [True] on [c]. *)
Theorem leaf_pattern_matches_anywhere
    (matches : TypeMatcher -> pyval -> res bool) (c : pyval) (L : string) :
  is_list_or_tuple c = true ->
  nested (VStr L) c ->
  matches (new_TypeMatcher (VStr L)) (VStr L) = Ok true ->
  (forall t, t = c \/ In t (atoms c) ->
             exists b, matches (new_TypeMatcher (VStr L)) t = Ok b) ->
  snd (_match_anywhere matches (new_TypeMatcher (VStr L)) c) = Ok (Some true).
Proof.
  intros Hc N Hexact Htotal.
  destruct (Htotal c (or_introl eq_refl)) as [[|] Hwhole].
  - unfold _match_anywhere. rewrite Hwhole. reflexivity.
  - rewrite (match_anywhere_composite matches (new_TypeMatcher (VStr L)) c Hc Hwhole).
    destruct (matches_each_total matches (new_TypeMatcher (VStr L)) (atoms c))
      as [bs [E Hany]].
    { intros i Hi. apply Htotal. right. exact Hi. }
    destruct (matches_each matches (new_TypeMatcher (VStr L)) (atoms c)) as [tr r].
    simpl in *. subst r.
    rewrite (Hany (VStr L)); [reflexivity| |exact Hexact].
    apply nested_atoms; [exact N | reflexivity].
Qed.

Lemma leaf_pattern_matches_anywhere_witness :
  snd (_match_anywhere exact_matches (new_TypeMatcher (VStr "float64")) vector_ref)
    = Ok (Some true).
Proof.
  apply (@leaf_pattern_matches_anywhere exact_matches vector_ref "float64").
  - reflexivity.
  - apply nested_deeper with (VTuple [VStr "vector"; float64; VStr "const"]).
    + simpl. auto.
    + apply nested_child. simpl. auto.
  - reflexivity.
  - intros t _. eexists. reflexivity.
Defined.

(** C5 as stated fails: the matcher accepts the identifier ['float64'], which
    [(('vector', 'float64', 'const'), '&')] contains, and raises [ValueError]
    on the composite itself; [except TypeError] does not catch it, so
    [_match_anywhere] raises instead of returning [True]. *)
Lemma leaf_pattern_counterexample :
  is_list_or_tuple vector_ref = true
  /\ nested (VStr "float64") vector_ref
  /\ identifier_matches (new_TypeMatcher (VStr "float64")) (VStr "float64") = Ok true
  /\ snd (_match_anywhere identifier_matches (new_TypeMatcher (VStr "float64"))
            vector_ref) = Raise (OtherError "ValueError")
  /\ snd (_match_anywhere identifier_matches (new_TypeMatcher (VStr "float64"))
            vector_ref) <> Ok (Some true).
Proof.
  split; [reflexivity|]. split.
  - apply nested_deeper with (VTuple [VStr "vector"; float64; VStr "const"]).
    + simpl. auto.
    + apply nested_child. simpl. auto.
  - split; [reflexivity|]. split; [reflexivity | discriminate].
Qed.

(** C1, at the failing input.  The matcher for ['float64'] raises [TypeError]
    on the composite [(('vector', 'float64', 'const'), '&')] and accepts its
    leaf ['float64']; [_match_anywhere] makes the one call on the whole
    candidate and returns [None]: the leaves are never tested. *)
Example match_anywhere_stops_after_TypeError :
  strict_matches (new_TypeMatcher float64) vector_ref = Raise TypeError
  /\ _match_anywhere strict_matches (new_TypeMatcher float64) vector_ref =
       ([(new_TypeMatcher float64, vector_ref)], Ok None)
  /\ _flatten vector_ref = VList [VStr "vector"; float64; VStr "const"; VStr "&"]
  /\ strict_matches (new_TypeMatcher float64) float64 = Ok true.
Proof. repeat split. Qed.

(** C3, as the code has it.  Only a [TypeError] is ever absorbed.  A
    [TypeError] of the call on the whole candidate does not leave
    [_match_anywhere].  An exception of any other kind propagates: out of the
    call on the whole candidate, and out of the call on a flattened element
    of a tuple or list that is reached after elements on which [matches]
    returned. *)
Theorem match_anywhere_absorbs_only_TypeError
    (matches : TypeMatcher -> pyval -> res bool) (self : TypeMatcher)
    (t : pyval) :
  (matches self t = Raise TypeError ->
   forall e, snd (_match_anywhere matches self t) <> Raise e)
  /\ (forall e, e <> TypeError ->
                matches self t = Raise e ->
                snd (_match_anywhere matches self t) = Raise e)
  /\ (forall e pre x post,
        e <> TypeError ->
        is_list_or_tuple t = true ->
        matches self t = Ok false ->
        atoms t = pre ++ x :: post ->
        (forall i, In i pre -> exists b, matches self i = Ok b) ->
        matches self x = Raise e ->
        snd (_match_anywhere matches self t) = Raise e).
Proof.
  split; [|split].
  - intros E e. rewrite (match_anywhere_after_TypeError matches self t E).
    discriminate.
  - intros e He E. unfold _match_anywhere. rewrite E.
    destruct e; [destruct (He eq_refl) | reflexivity | reflexivity].
  - intros e pre x post _ Hc E Hatoms Hpre Hx.
    rewrite (match_anywhere_composite matches self t Hc E), Hatoms.
    pose proof (@matches_each_raises matches self pre x post e Hpre Hx) as R.
    destruct (matches_each matches self (pre ++ x :: post)) as [tr r].
    simpl in *. rewrite R. reflexivity.
Qed.

Lemma match_anywhere_absorbs_only_TypeError_witness :
  (forall e, snd (_match_anywhere strict_matches (new_TypeMatcher float64) vector_ref)
             <> Raise e)
  /\ snd (_match_anywhere identifier_matches (new_TypeMatcher float64) vector_ref)
     = Raise (OtherError "ValueError").
Proof.
  split.
  - apply (@match_anywhere_absorbs_only_TypeError strict_matches
             (new_TypeMatcher float64) vector_ref).
    reflexivity.
  - apply (@match_anywhere_absorbs_only_TypeError identifier_matches
             (new_TypeMatcher float64) vector_ref).
    + discriminate.
    + reflexivity.
Defined.

(** C3 as stated fails: the matcher raises [ValueError] on the composite
    return type [(('vector', 'float64', 'const'), '&')] of the method [f];
    [except TypeError] does not catch it, so the exception leaves
    [_match_anywhere] and ends [execute]. *)
Lemma other_exception_ends_the_pass :
  identifier_matches (new_TypeMatcher float64) vector_ref
    = Raise (OtherError "ValueError")
  /\ snd (_match_anywhere identifier_matches (new_TypeMatcher float64) vector_ref)
     = Raise (OtherError "ValueError")
  /\ run_exn (execute identifier_matches (setup (new_rc (SkipList [float64]) model)))
     = Some (OtherError "ValueError").
Proof. repeat split; vm_compute; reflexivity. Qed.

(** Beside it, a [TypeError] is absorbed on the whole candidate only: the
    matcher for [(('int32', 'const'), '&')] returns false on
    [('vector', 'int32', 0)] and raises [TypeError] on its element [0], and
    that one is not caught. *)
Lemma leaf_failure_ends_the_pass :
  snd (_match_anywhere strict_matches (new_TypeMatcher int32_cref) vector_int)
    = Raise TypeError
  /\ run_exn (execute strict_matches (setup (new_rc (SkipList [int32_cref]) model)))
    = Some TypeError.
Proof. split; vm_compute; reflexivity. Qed.

(** ** The filter engine *)

Section EngineClaims.

Variable matches : TypeMatcher -> pyval -> res bool.

Lemma loops_without_matchers (c : classdesc) :
  _modify_class_desc matches (SkipList []) c None = ([], c, None).
Proof.
  unfold _modify_class_desc. simpl select_skips. cbv iota.
  assert (Ha : forall snap d, attrs_loop matches [] snap d = ([], d, None)).
  { induction snap as [|[k t] snap IH]; intros d; simpl; [reflexivity|].
    rewrite IH. reflexivity. }
  assert (Hg : forall args k d,
             args_loop matches [] args k d = ([], (d, false), None)).
  { induction args as [|a args IH]; intros k d; simpl; [reflexivity|].
    rewrite IH. reflexivity. }
  assert (Hm : forall snap d, methods_loop matches [] snap d = ([], d, None)).
  { induction snap as [|[k t] snap IH]; intros d; simpl; [reflexivity|].
    rewrite Hg, IH. reflexivity. }
  rewrite Ha, Hm. destruct c. reflexivity.
Qed.

Lemma walk_id (sk : skipconf TypeMatcher) (by_name : bool) (e : environ) :
  (forall mod_key m kls_key d,
      In (mod_key, m) e -> In (kls_key, d) m ->
      visit_desc matches sk by_name d = ([], d, None)) ->
  for_values (for_values (visit_desc matches sk by_name)) e = ([], e, None).
Proof.
  intros H. apply for_values_id. intros [mod_key m] Hm. simpl.
  apply for_values_id. intros [kls_key d] Hd. simpl. eapply H; eauto.
Qed.

End EngineClaims.

(** C6.  With an absent or empty exclusion configuration (the unset
    sentinel, [None], an empty dictionary, list or tuple), [setup] followed
    by [execute] calls no matcher, leaves the model as it is and raises
    nothing. *)
Theorem empty_configuration_changes_nothing
    (matches : TypeMatcher -> pyval -> res bool) (sk : skipconf pyval)
    (e : environ) :
  conf_is_empty sk = true ->
  run_trace (execute matches (setup (new_rc sk e))) = []
  /\ env (run_state (execute matches (setup (new_rc sk e)))) = e
  /\ run_exn (execute matches (setup (new_rc sk e))) = None.
Proof.
  intros Hempty.
  destruct sk as [| |[|kv d]|[|t l]|[|t l]]; try discriminate;
    unfold setup, execute; simpl skiptypes; simpl env; cbv iota;
    try (repeat split; reflexivity).
  - rewrite walk_id; [repeat split; reflexivity|].
    intros mod_key m kls_key [c|b] _ _; reflexivity.
  - rewrite walk_id; [repeat split; reflexivity|].
    intros mod_key m kls_key [c|b] _ _; [|reflexivity].
    simpl. rewrite loops_without_matchers. reflexivity.
  - rewrite walk_id; [repeat split; reflexivity|].
    intros mod_key m kls_key [c|b] _ _; [|reflexivity].
    simpl. rewrite loops_without_matchers. reflexivity.
Qed.

Lemma empty_configuration_changes_nothing_witness :
  run_trace (execute strict_matches (setup (new_rc (SkipTuple []) model))) = []
  /\ env (run_state (execute strict_matches (setup (new_rc (SkipTuple []) model))))
     = model
  /\ run_exn (execute strict_matches (setup (new_rc (SkipTuple []) model))) = None.
Proof.
  apply (@empty_configuration_changes_nothing strict_matches (SkipTuple []) model).
  reflexivity.
Defined.

(** Key uniqueness of a concrete dictionary, by inspection. *)
Ltac distinct_keys :=
  repeat (apply NoDup_cons; [simpl; intuition discriminate|]); apply NoDup_nil.

Lemma model_wf : env_wf model.
Proof.
  unfold env_wf, dict_wf. simpl. split; [distinct_keys|].
  constructor; [|constructor]. unfold module_wf, dict_wf. simpl.
  split; [distinct_keys|].
  constructor; [|constructor; [exact I|constructor]].
  unfold class_wf, dict_wf. simpl. split; distinct_keys.
Qed.

(** *** The method pass *)

Lemma first_match_stops (matches : TypeMatcher -> pyval -> res bool)
    (pre : list (TypeMatcher * pyval)) (tm : TypeMatcher) (t : pyval)
    (post : list (TypeMatcher * pyval)) :
  Forall (fun x => exists v, snd (_match_anywhere matches (fst x) (snd x)) = Ok v
                             /\ truthy v = false) pre ->
  (exists v, snd (_match_anywhere matches tm t) = Ok v /\ truthy v = true) ->
  first_match matches (pre ++ (tm, t) :: post) =
    (flat_map (fun x => fst (_match_anywhere matches (fst x) (snd x))) pre
       ++ fst (_match_anywhere matches tm t),
     Ok true).
Proof.
  intros Hpre [v [Ev Hv]]. induction Hpre as [|[tm0 t0] pre [v0 [E0 H0]] _ IH]; simpl.
  - destruct (_match_anywhere matches tm t) as [tr r]. simpl in *. subst r.
    rewrite Hv. reflexivity.
  - simpl in E0. destruct (_match_anywhere matches tm0 t0) as [tr r].
    simpl in *. subst r. rewrite H0, IH, app_assoc. reflexivity.
Qed.

(** C4.  On a method dictionary with distinct keys, the method loop is one
    visit of every method in order ([prune]).  The tests of a method are its
    return type against every matcher, then the type of each parameter, in
    parameter order, against every matcher; they are evaluated in that order
    up to the first true one, and nothing after it is evaluated; the method is
    removed exactly when a test was true.  When no matcher raises, every
    method is examined once and those without a true test remain. *)
Theorem method_pass_order (matches : TypeMatcher -> pyval -> res bool)
    (skips : list TypeMatcher) (ms : dict method_key pyval) :
  dict_wf ms ->
  (forall m_key m_ret,
      method_tests skips (m_key, m_ret) =
        map (fun tm => (tm, m_ret)) skips
        ++ flat_map (fun a => map (fun tm => (tm, arg_type a)) skips) (m_args m_key))
  /\ (forall pre tm t post,
        Forall (fun x => exists v,
                    snd (_match_anywhere matches (fst x) (snd x)) = Ok v
                    /\ truthy v = false) pre ->
        (exists v, snd (_match_anywhere matches tm t) = Ok v /\ truthy v = true) ->
        first_match matches (pre ++ (tm, t) :: post) =
          (flat_map (fun x => fst (_match_anywhere matches (fst x) (snd x))) pre
             ++ fst (_match_anywhere matches tm t),
           Ok true))
  /\ methods_loop matches skips ms ms = prune matches (method_tests skips) ms
  /\ (forall ats : dict string pyval,
        dict_wf ats ->
        attrs_loop matches skips ats ats = prune matches (attr_tests skips) ats)
  /\ (run_exn (methods_loop matches skips ms ms) = None ->
      run_trace (methods_loop matches skips ms ms) =
        flat_map (fun m => fst (first_match matches (method_tests skips m))) ms
      /\ run_state (methods_loop matches skips ms ms) =
        filter (fun m => negb (is_hit (first_match matches (method_tests skips m)))) ms).
Proof.
  intros Hwf. split; [|split; [|split; [|split]]].
  - intros m_key m_ret. unfold method_tests, method_types, tests_on. simpl.
    f_equal. induction (m_args m_key) as [|a args IH]; simpl; [reflexivity|].
    rewrite IH. reflexivity.
  - intros pre tm t post. apply first_match_stops.
  - apply methods_loop_prune. exact Hwf.
  - intros ats. apply attrs_loop_prune.
  - rewrite (methods_loop_prune matches skips Hwf). apply prune_completed.
Qed.

Lemma method_pass_order_witness :
  methods_loop exact_matches [new_TypeMatcher float64] (methods Blah) (methods Blah)
    = prune exact_matches (method_tests [new_TypeMatcher float64]) (methods Blah).
Proof.
  apply (@method_pass_order exact_matches [new_TypeMatcher float64] (methods Blah)).
  unfold dict_wf. simpl. distinct_keys.
Defined.

(** *** Whole runs *)

Lemma execute_by_name (matches : TypeMatcher -> pyval -> res bool)
    (d : dict string (list TypeMatcher)) (e : environ) :
  run_trace (execute matches (new_rc (SkipDict d) e)) =
    run_trace (for_values (for_values (visit_desc matches (SkipDict d) true)) e)
  /\ env (run_state (execute matches (new_rc (SkipDict d) e))) =
    run_state (for_values (for_values (visit_desc matches (SkipDict d) true)) e)
  /\ run_exn (execute matches (new_rc (SkipDict d) e)) =
    run_exn (for_values (for_values (visit_desc matches (SkipDict d) true)) e).
Proof.
  unfold execute, run_trace, run_state, run_exn. simpl.
  destruct (for_values (for_values (visit_desc matches (SkipDict d) true)) e)
    as [[tr e'] o].
  repeat split.
Qed.

Lemma dict_mem_In (V : Type) (k : string) (d : dict string V) :
  dict_mem String.eqb k d = true -> In k (keys d).
Proof.
  unfold dict_mem, keys. intros H. apply existsb_exists in H.
  destruct H as [[k' v] [Hin E]]. simpl in E. apply String.eqb_eq in E. subst k'.
  apply in_map_iff. exists (k, v). auto.
Qed.

Lemma dict_mem_skip (V : Type) (n k : string) (l : V) (d1 d2 : dict string V) :
  n <> k ->
  dict_mem String.eqb n (d1 ++ (k, l) :: d2) = dict_mem String.eqb n (d1 ++ d2).
Proof.
  intros Hn. unfold dict_mem. rewrite !existsb_app. simpl.
  replace (String.eqb k n) with false; [reflexivity|].
  symmetry. apply String.eqb_neq. congruence.
Qed.

Lemma dict_get_skip (V : Type) (n k : string) (l : V) (d1 d2 : dict string V) :
  n <> k ->
  dict_get String.eqb n (d1 ++ (k, l) :: d2) = dict_get String.eqb n (d1 ++ d2).
Proof.
  intros Hn. induction d1 as [|[k' v] d1 IH]; simpl.
  - replace (String.eqb k n) with false; [reflexivity|].
    symmetry. apply String.eqb_neq. congruence.
  - rewrite IH. reflexivity.
Qed.

(** C7.  Under a per-class configuration every module and entity key stays
    where it is and every description that is not a class named by the
    dictionary comes out as it went in.  When no key of the dictionary names
    a class of the model, the run calls no matcher, changes nothing and raises
    nothing; and a key that names no class of the model can be taken out of
    the dictionary without any effect on the run. *)
Theorem per_class_configuration_frame
    (matches : TypeMatcher -> pyval -> res bool)
    (skip_classes : dict string (list TypeMatcher)) (e : environ) :
  same_keys (same_keys (fun d d' => untouched_by skip_classes d -> d' = d)) e
    (env (run_state (execute matches (new_rc (SkipDict skip_classes) e))))
  /\ ((forall k, In k (keys skip_classes) -> ~ names_class k e) ->
      execute matches (new_rc (SkipDict skip_classes) e) =
        ([], new_rc (SkipDict skip_classes) e, None))
  /\ (forall d1 k l d2,
        skip_classes = d1 ++ (k, l) :: d2 ->
        ~ names_class k e ->
        run_trace (execute matches (new_rc (SkipDict skip_classes) e)) =
          run_trace (execute matches (new_rc (SkipDict (d1 ++ d2)) e))
        /\ env (run_state (execute matches (new_rc (SkipDict skip_classes) e))) =
          env (run_state (execute matches (new_rc (SkipDict (d1 ++ d2)) e)))
        /\ run_exn (execute matches (new_rc (SkipDict skip_classes) e)) =
          run_exn (execute matches (new_rc (SkipDict (d1 ++ d2)) e))).
Proof.
  split; [|split].
  - destruct (execute_by_name matches skip_classes e) as [_ [-> _]].
    apply for_values_same_keys.
    + intros m. apply same_keys_refl. auto.
    + intros m. apply for_values_same_keys; [auto|].
      intros [c|b] Hu; [|reflexivity].
      simpl in Hu. unfold visit_desc. rewrite Hu. reflexivity.
  - intros Hunused. unfold execute. simpl.
    rewrite walk_id; [reflexivity|].
    intros mod_key m kls_key [c|b] Hm Hd; [|reflexivity].
    unfold visit_desc.
    destruct (dict_mem String.eqb (name c) skip_classes) eqn:Hmem; [|reflexivity].
    exfalso. apply (Hunused (name c) (dict_mem_In _ _ Hmem)).
    exists mod_key, m, kls_key, c. auto.
  - intros d1 k l d2 -> Hk.
    destruct (execute_by_name matches (d1 ++ (k, l) :: d2) e) as [-> [-> ->]].
    destruct (execute_by_name matches (d1 ++ d2) e) as [-> [-> ->]].
    assert (E : for_values (for_values
                  (visit_desc matches (SkipDict (d1 ++ (k, l) :: d2)) true)) e =
                for_values (for_values
                  (visit_desc matches (SkipDict (d1 ++ d2)) true)) e).
    { apply for_values_ext. intros [mod_key m] Hm. simpl.
      apply for_values_ext. intros [kls_key [c|b]] Hd; [|reflexivity]. simpl.
      assert (Hn : name c <> k).
      { intros Hn. apply Hk. exists mod_key, m, kls_key, c. auto. }
      rewrite (dict_mem_skip l d1 d2 Hn).
      destruct (dict_mem String.eqb (name c) (d1 ++ d2)); [|reflexivity].
      unfold _modify_class_desc. simpl select_skips.
      rewrite (dict_get_skip l d1 d2 Hn). reflexivity. }
    rewrite E. repeat split.
Qed.

Lemma per_class_configuration_frame_witness :
  execute exact_matches (new_rc (SkipDict [("Other", [new_TypeMatcher float64])]) model)
    = ([], new_rc (SkipDict [("Other", [new_TypeMatcher float64])]) model, None).
Proof.
  apply (@per_class_configuration_frame exact_matches
           [("Other", [new_TypeMatcher float64])] model).
  simpl. intros k [<-|[]] [mod_key [m [kls_key [c [Hm [Hd Hn]]]]]].
  simpl in Hm. destruct Hm as [Hm|[]]. injection Hm as _ <-.
  simpl in Hd. destruct Hd as [Hd|[Hd|[]]]; [|discriminate].
  injection Hd as _ <-. discriminate.
Defined.

(** C9.  Whatever the configuration and however the run ends, [execute]
    leaves the configuration alone and keeps every module key and every
    entity key in place; a description that is not a class is unchanged, a
    class keeps its name, and its [attrs] and [methods] are what they were
    with some entries removed.  Key uniqueness at every level survives. *)
Theorem execute_keeps_model_shape
    (matches : TypeMatcher -> pyval -> res bool) (rc : RunControl TypeMatcher) :
  skiptypes (run_state (execute matches rc)) = skiptypes rc
  /\ env_pruned (env rc) (env (run_state (execute matches rc)))
  /\ (env_wf (env rc) -> env_wf (env (run_state (execute matches rc)))).
Proof.
  split; [apply execute_skiptypes|].
  split; [apply execute_pruned|].
  apply env_pruned_wf. apply execute_pruned.
Qed.

Lemma execute_keeps_model_shape_witness :
  env_wf (env (run_state (execute strict_matches
                            (setup (new_rc (SkipList [int32_cref]) model))))).
Proof.
  apply (@execute_keeps_model_shape strict_matches
           (setup (new_rc (SkipList [int32_cref]) model))).
  exact model_wf.
Defined.

(** C8.  On a model with distinct keys, running [execute] again on the
    model it produced, with the same configuration, leaves that model as it
    is and ends the way the first run ended. *)
Theorem execute_twice_is_once
    (matches : TypeMatcher -> pyval -> res bool) (rc : RunControl TypeMatcher) :
  env_wf (env rc) ->
  run_state (execute matches (run_state (execute matches rc))) =
    run_state (execute matches rc)
  /\ run_exn (execute matches (run_state (execute matches rc))) =
    run_exn (execute matches rc).
Proof.
  intros Hwf. destruct rc as [sk e]. simpl in Hwf. unfold execute. simpl.
  destruct sk as [| |d|l|l]; try (split; reflexivity).
  - destruct (walk_settled matches (SkipDict d) true Hwf) as [tr' E].
    unfold run_state, run_exn in *.
    destruct (for_values (for_values (visit_desc matches (SkipDict d) true)) e)
      as [[tr e'] o].
    simpl in *. rewrite E. split; reflexivity.
  - destruct (walk_settled matches (SkipList l) false Hwf) as [tr' E].
    unfold run_state, run_exn in *.
    destruct (for_values (for_values (visit_desc matches (SkipList l) false)) e)
      as [[tr e'] o].
    simpl in *. rewrite E. split; reflexivity.
Qed.

Lemma execute_twice_is_once_witness :
  run_state (execute exact_matches
               (run_state (execute exact_matches
                             (setup (new_rc (SkipList [float64]) model))))) =
    run_state (execute exact_matches (setup (new_rc (SkipList [float64]) model)))
  /\ run_exn (execute exact_matches
                (run_state (execute exact_matches
                              (setup (new_rc (SkipList [float64]) model))))) =
    run_exn (execute exact_matches (setup (new_rc (SkipList [float64]) model))).
Proof.
  apply (@execute_twice_is_once exact_matches
           (setup (new_rc (SkipList [float64]) model))).
  exact model_wf.
Defined.

(** * Further properties of the code *)

(** ** More on [_flatten] *)

Lemma atoms_are_atoms (v x : pyval) : In x (atoms v) -> is_list_or_tuple x = false.
Proof. intros H. apply (atoms_nested v x H). Qed.

Lemma atoms_of_atoms (l : list pyval) :
  Forall (fun x => is_list_or_tuple x = false) l -> flat_map atoms l = l.
Proof.
  induction 1 as [|x l Hx _ IH]; simpl; [reflexivity|].
  rewrite (atoms_of_atom x Hx), IH. reflexivity.
Qed.

Lemma chars_are_atoms (s : string) :
  Forall (fun x => is_list_or_tuple x = false) (chars s).
Proof.
  unfold chars. apply Forall_forall. intros x Hx.
  apply in_map_iff in Hx. destruct Hx as [c [<- _]]. reflexivity.
Qed.

(** X1.  The list that [_flatten] returns is flat, and flattening it again gives
    it back; a value that is not iterable comes back as it is. *)
Theorem flatten_is_flat_and_idempotent (v : pyval) :
  _flatten (_flatten v) = _flatten v
  /\ (forall l, _flatten v = VList l ->
                Forall (fun x => is_list_or_tuple x = false) l)
  /\ (py_iter v = Raise TypeError -> _flatten v = v).
Proof.
  assert (Hflat : forall l, Forall (fun x => is_list_or_tuple x = false) l ->
                            _flatten (VList l) = VList l).
  { intros l Hl. rewrite (flatten_composite (VList l) eq_refl). simpl.
    rewrite (atoms_of_atoms Hl). reflexivity. }
  destruct v as [| |s|l|l].
  - repeat split; try reflexivity. discriminate.
  - repeat split; try reflexivity. discriminate.
  - change (_flatten (VStr s)) with (VList (chars s)).
    split; [apply Hflat, chars_are_atoms|].
    split; [|discriminate].
    intros l E. injection E as <-. apply chars_are_atoms.
  - rewrite (flatten_composite (VTuple l) eq_refl).
    assert (Ha : Forall (fun x => is_list_or_tuple x = false) (atoms (VTuple l)))
      by (apply Forall_forall; intros x; apply atoms_are_atoms).
    split; [apply Hflat, Ha|]. split; [|discriminate].
    intros l' E. injection E as <-. exact Ha.
  - rewrite (flatten_composite (VList l) eq_refl).
    assert (Ha : Forall (fun x => is_list_or_tuple x = false) (atoms (VList l)))
      by (apply Forall_forall; intros x; apply atoms_are_atoms).
    split; [apply Hflat, Ha|]. split; [|discriminate].
    intros l' E. injection E as <-. exact Ha.
Qed.

Lemma flatten_is_flat_and_idempotent_witness :
  Forall (fun x => is_list_or_tuple x = false)
    [VStr "vector"; float64; VStr "const"; VStr "&"]
  /\ _flatten (VInt 0) = VInt 0.
Proof.
  split.
  - apply (@flatten_is_flat_and_idempotent vector_ref). reflexivity.
  - apply (@flatten_is_flat_and_idempotent (VInt 0)). reflexivity.
Defined.

(** X2.  Flattening does not see how the elements are grouped: a tuple and a list
    of the same items flatten alike, the flattening of a concatenation is the
    concatenation of the flattenings, and wrapping the items in one more
    tuple or list changes nothing. *)
Theorem flatten_ignores_grouping (l1 l2 : list pyval) :
  exists a b,
    _flatten (VTuple l1) = VList a
    /\ _flatten (VTuple l2) = VList b
    /\ _flatten (VList l1) = VList a
    /\ _flatten (VTuple (l1 ++ l2)) = VList (a ++ b)
    /\ _flatten (VTuple [VTuple l1; VList l2]) = VList (a ++ b)
    /\ _flatten (VList [VTuple [VList l1]]) = VList a.
Proof.
  exists (flat_map atoms l1), (flat_map atoms l2).
  repeat split;
    match goal with
    | |- _flatten ?c = _ => rewrite (flatten_composite c eq_refl)
    end; simpl; rewrite ?flat_map_app, ?app_nil_r; reflexivity.
Qed.

(** ** The verdict of [_match_anywhere] *)

(** Whether [tm._match_anywhere(t)] is true; an exception is no verdict. *)
Definition matched (matches : TypeMatcher -> pyval -> res bool)
    (tm : TypeMatcher) (t : pyval) : bool :=
  match snd (_match_anywhere matches tm t) with
  | Ok v => truthy v
  | Raise _ => false
  end.

(** Whether [tm.matches(t)] returned true. *)
Definition accepts (matches : TypeMatcher -> pyval -> res bool)
    (tm : TypeMatcher) (t : pyval) : bool :=
  match matches tm t with
  | Ok b => b
  | Raise _ => false
  end.

Lemma matches_each_values (matches : TypeMatcher -> pyval -> res bool)
    (self : TypeMatcher) (leaves : list pyval) :
  (forall i, In i leaves -> exists b, matches self i = Ok b) ->
  matches_each matches self leaves =
    (map (fun i => (self, i)) leaves, Ok (map (accepts matches self) leaves)).
Proof.
  induction leaves as [|i rest IH]; intros Htot; simpl; [reflexivity|].
  unfold accepts at 1.
  destruct (Htot i (or_introl eq_refl)) as [b ->].
  rewrite IH by (intros j Hj; apply Htot; right; exact Hj). reflexivity.
Qed.

Lemma any_map (A : Type) (f : A -> bool) (l : list A) :
  any (map f l) = existsb f l.
Proof.
  unfold any. induction l as [|x l IH]; simpl; [reflexivity|].
  rewrite IH. reflexivity.
Qed.

(** X3.  An exact match is an anywhere match, found with a single call.  On a
    candidate that is neither a tuple nor a list the verdict is that of
    [matches] on the candidate itself: the characters of a [str] are never
    tested, and a [TypeError] counts as no match.  On a tuple or list that
    [matches] rejects as a whole, and on whose elements it returns, every
    flattened element is tested once, in order, and the verdict is whether
    one of them is accepted. *)
Theorem match_anywhere_verdict (matches : TypeMatcher -> pyval -> res bool)
    (self : TypeMatcher) (t : pyval) :
  (matches self t = Ok true ->
   _match_anywhere matches self t = ([(self, t)], Ok (Some true)))
  /\ (is_list_or_tuple t = false ->
      matched matches self t = accepts matches self t
      /\ forall tm x, In (tm, x) (fst (_match_anywhere matches self t)) ->
                      tm = self /\ x = t)
  /\ (is_list_or_tuple t = true ->
      matches self t = Ok false ->
      (forall x, In x (atoms t) -> exists b, matches self x = Ok b) ->
      _match_anywhere matches self t =
        ((self, t) :: map (fun x => (self, x)) (atoms t),
         Ok (Some (existsb (accepts matches self) (atoms t))))).
Proof.
  split; [|split].
  - intros E. unfold _match_anywhere. rewrite E. reflexivity.
  - intros Ht. unfold matched, accepts, _match_anywhere. rewrite Ht.
    destruct (matches self t) as [[|]|e] eqn:E.
    + split; [reflexivity|]. intros tm x [H|[]]. inversion H. auto.
    + destruct (is_str t); (split; [reflexivity|]).
      * intros tm x [H|[H|[]]]; inversion H; auto.
      * intros tm x [H|[]]; inversion H; auto.
    + destruct e; (split; [reflexivity|]);
        intros tm x [H|[]]; inversion H; auto.
  - intros Ht E Htot.
    rewrite (match_anywhere_composite matches self t Ht E).
    rewrite (matches_each_values matches self (atoms t) Htot).
    rewrite any_map. reflexivity.
Qed.

Lemma match_anywhere_verdict_witness :
  _match_anywhere exact_matches (new_TypeMatcher float64) vector_ref =
    ((new_TypeMatcher float64, vector_ref)
       :: map (fun x => (new_TypeMatcher float64, x)) (atoms vector_ref),
     Ok (Some (existsb (accepts exact_matches (new_TypeMatcher float64))
                 (atoms vector_ref))))
  /\ matched strict_matches (new_TypeMatcher int32_cref) (VInt 0) =
     accepts strict_matches (new_TypeMatcher int32_cref) (VInt 0).
Proof.
  split.
  - apply (@match_anywhere_verdict exact_matches (new_TypeMatcher float64) vector_ref).
    + reflexivity.
    + reflexivity.
    + intros x _. eexists. reflexivity.
  - apply (@match_anywhere_verdict strict_matches (new_TypeMatcher int32_cref) (VInt 0)).
    reflexivity.
Defined.

(** ** The pass as a filter *)

Section Filter.

Variable matches : TypeMatcher -> pyval -> res bool.

(** A type is excluded by a list of matchers when one of them matches it
    anywhere. *)
Definition excluded (skips : list TypeMatcher) (t : pyval) : bool :=
  existsb (fun tm => matched matches tm t) skips.

Definition attr_survives (skips : list TypeMatcher) (a : string * pyval) : bool :=
  negb (excluded skips (snd a)).

Definition method_survives (skips : list TypeMatcher) (m : method_key * pyval)
  : bool :=
  negb (existsb (excluded skips) (method_types m)).

(** The class with the attributes and methods that survive. *)
Definition filter_class (skips : list TypeMatcher) (c : classdesc) : classdesc :=
  new_classdesc (name c)
    (filter (attr_survives skips) (attrs c))
    (filter (method_survives skips) (methods c)).

(** The matchers that [execute] applies to a class. *)
Definition applicable (sk : skipconf TypeMatcher) (c : classdesc)
  : list TypeMatcher :=
  match sk with
  | SkipList l => l
  | SkipDict d =>
      match dict_get String.eqb (name c) d with
      | Ok l => l
      | Raise _ => []
      end
  | NotSpecified | SkipNone | SkipTuple _ => []
  end.

Definition filter_desc (sk : skipconf TypeMatcher) (d : desc) : desc :=
  match d with
  | ClassDesc c => ClassDesc (filter_class (applicable sk c) c)
  | OtherDesc _ => d
  end.

Definition map_values {K V : Type} (f : V -> V) (d : dict K V) : dict K V :=
  map (fun kv => (fst kv, f (snd kv))) d.

Definition filter_env (sk : skipconf TypeMatcher) (e : environ) : environ :=
  map_values (map_values (filter_desc sk)) e.

Lemma first_match_verdict (tests : list (TypeMatcher * pyval)) (b : bool) :
  snd (first_match matches tests) = Ok b ->
  b = existsb (fun x => matched matches (fst x) (snd x)) tests.
Proof.
  revert b. induction tests as [|[tm t] tests IH]; simpl; intros b.
  - intros E. injection E as <-. reflexivity.
  - unfold matched at 1. simpl.
    destruct (_match_anywhere matches tm t) as [tr [v|e]]; simpl; [|discriminate].
    destruct (truthy v); simpl.
    + intros E. injection E as <-. reflexivity.
    + destruct (first_match matches tests) as [tr' r']. simpl in *. exact (IH b).
Qed.

Lemma existsb_flat_map (A B : Type) (p : B -> bool) (f : A -> list B) (l : list A) :
  existsb p (flat_map f l) = existsb (fun x => existsb p (f x)) l.
Proof.
  induction l as [|x l IH]; simpl; [reflexivity|].
  rewrite existsb_app, IH. reflexivity.
Qed.

Lemma tests_on_verdict (skips : list TypeMatcher) (t : pyval) :
  existsb (fun x => matched matches (fst x) (snd x)) (tests_on skips t) =
    excluded skips t.
Proof.
  unfold tests_on, excluded. induction skips as [|tm skips IH]; simpl; [reflexivity|].
  rewrite IH. reflexivity.
Qed.

Lemma method_tests_verdict (skips : list TypeMatcher) (m : method_key * pyval) :
  existsb (fun x => matched matches (fst x) (snd x)) (method_tests skips m) =
    existsb (excluded skips) (method_types m).
Proof.
  unfold method_tests. rewrite existsb_flat_map.
  induction (method_types m) as [|t l IH]; simpl; [reflexivity|].
  rewrite tests_on_verdict, IH. reflexivity.
Qed.

Lemma prune_no_raise (K : Type) (tests : K * pyval -> list (TypeMatcher * pyval))
    (d : dict K pyval) :
  run_exn (prune matches tests d) = None ->
  forall kv, In kv d -> exists b, snd (first_match matches (tests kv)) = Ok b.
Proof.
  unfold run_exn. induction d as [|kv0 rest IH]; simpl; [contradiction|].
  destruct (first_match matches (tests kv0)) as [tr [hit|e]] eqn:E; simpl;
    [|discriminate].
  destruct (prune matches tests rest) as [[tr' rest'] o]. simpl in *.
  intros Ho kv [<-|Hin].
  - rewrite E. simpl. eauto.
  - apply IH; assumption.
Qed.

Lemma prune_filters (K : Type) (tests : K * pyval -> list (TypeMatcher * pyval))
    (d : dict K pyval) :
  run_exn (prune matches tests d) = None ->
  run_state (prune matches tests d) =
    filter (fun kv => negb (existsb (fun x => matched matches (fst x) (snd x))
                              (tests kv))) d.
Proof.
  intros Ho. destruct (prune_completed matches tests d Ho) as [_ ->].
  apply filter_ext_in. intros kv Hkv.
  destruct (prune_no_raise tests d Ho kv Hkv) as [b Hb].
  rewrite <- (first_match_verdict _ Hb). unfold is_hit. rewrite Hb.
  destruct b; reflexivity.
Qed.

Lemma modify_class_filters_core (sk : skipconf TypeMatcher) (c : classdesc)
    (n : option string) (skips : list TypeMatcher) :
  class_wf c ->
  select_skips sk n = Ok skips ->
  run_exn (_modify_class_desc matches sk c n) = None ->
  run_state (_modify_class_desc matches sk c n) = filter_class skips c.
Proof.
  intros [Wa Wm] Hsel. unfold _modify_class_desc. rewrite Hsel.
  rewrite (attrs_loop_prune matches skips Wa).
  pose proof (prune_filters (attr_tests skips) (attrs c)) as Fa.
  unfold run_state, run_exn in *.
  destruct (prune matches (attr_tests skips) (attrs c)) as [[tr1 a'] [e|]];
    simpl in *; [discriminate|].
  rewrite (methods_loop_prune matches skips Wm).
  pose proof (prune_filters (method_tests skips) (methods c)) as Fm.
  unfold run_state, run_exn in *.
  destruct (prune matches (method_tests skips) (methods c)) as [[tr2 m'] o2];
    simpl in *.
  intros Ho. rewrite (Fa eq_refl), (Fm Ho). unfold filter_class. f_equal.
  - apply filter_ext. intros a. unfold attr_tests, attr_survives.
    rewrite tests_on_verdict. reflexivity.
  - apply filter_ext. intros m. unfold method_survives.
    rewrite method_tests_verdict. reflexivity.
Qed.

End Filter.

(** The two ways [execute] walks the model: by class name under a
    dictionary, over every class under a list. *)
Definition walk_mode (sk : skipconf TypeMatcher) (by_name : bool) : Prop :=
  match sk, by_name with
  | SkipDict _, true => True
  | SkipList _, false => True
  | _, _ => False
  end.

Lemma dict_mem_get (V : Type) (k : string) (d : dict string V) :
  dict_mem String.eqb k d = true -> exists v, dict_get String.eqb k d = Ok v.
Proof.
  unfold dict_mem. induction d as [|[k' v] d IH]; simpl; [discriminate|].
  destruct (String.eqb k' k); simpl; eauto.
Qed.

Lemma dict_not_mem_get (V : Type) (k : string) (d : dict string V) :
  dict_mem String.eqb k d = false -> dict_get String.eqb k d = Raise KeyError.
Proof.
  unfold dict_mem. induction d as [|[k' v] d IH]; simpl; [reflexivity|].
  destruct (String.eqb k' k); simpl; [discriminate | exact IH].
Qed.

Lemma dict_get_mem (V : Type) (k : string) (d : dict string V) (v : V) :
  dict_get String.eqb k d = Ok v -> dict_mem String.eqb k d = true.
Proof.
  intros E. destruct (dict_mem String.eqb k d) eqn:M; [reflexivity|].
  rewrite (dict_not_mem_get k d M) in E. discriminate.
Qed.

Lemma dict_get_In (V : Type) (k : string) (d : dict string V) (v : V) :
  dict_get String.eqb k d = Ok v -> In (k, v) d.
Proof.
  induction d as [|[k' v'] d IH]; simpl; [discriminate|].
  destruct (String.eqb k' k) eqn:E.
  - apply String.eqb_eq in E. subst k'. intros H. injection H as ->. auto.
  - auto.
Qed.

Lemma filter_all (A : Type) (p : A -> bool) (l : list A) :
  (forall x, p x = true) -> filter p l = l.
Proof.
  intros H. induction l as [|x l IH]; simpl; [reflexivity|].
  rewrite H, IH. reflexivity.
Qed.

Lemma map_values_id (K V : Type) (f : V -> V) (d : dict K V) :
  (forall v, f v = v) -> map_values f d = d.
Proof.
  intros H. unfold map_values. induction d as [|[k v] d IH]; simpl; [reflexivity|].
  rewrite H, IH. reflexivity.
Qed.

Section FilterRuns.

Variable matches : TypeMatcher -> pyval -> res bool.

Lemma filter_class_nil (c : classdesc) : filter_class matches [] c = c.
Proof.
  unfold filter_class. rewrite !filter_all; [destruct c; reflexivity| |].
  - intros m. unfold method_survives.
    induction (method_types m) as [|t l IH]; simpl in *; [reflexivity | exact IH].
  - intros a. reflexivity.
Qed.

Lemma filter_env_inert (sk : skipconf TypeMatcher) (e : environ) :
  (forall c, applicable sk c = []) -> filter_env matches sk e = e.
Proof.
  intros H. unfold filter_env. apply map_values_id. intros m.
  apply map_values_id. intros [c|b]; [|reflexivity].
  simpl. rewrite H, filter_class_nil. reflexivity.
Qed.

Lemma visit_desc_filters (sk : skipconf TypeMatcher) (by_name : bool) (d : desc) :
  walk_mode sk by_name ->
  desc_wf d ->
  run_exn (visit_desc matches sk by_name d) = None ->
  run_state (visit_desc matches sk by_name d) = filter_desc matches sk d.
Proof.
  intros Hmode Hwf. destruct d as [c|b]; [|reflexivity]. simpl in Hwf.
  assert (H : forall n skips,
             select_skips sk n = Ok skips ->
             run_exn (let '(tr, c', o) := _modify_class_desc matches sk c n in
                      (tr, ClassDesc c', o)) = None ->
             run_state (let '(tr, c', o) := _modify_class_desc matches sk c n in
                        (tr, ClassDesc c', o)) =
               ClassDesc (filter_class matches skips c)).
  { intros n skips Hsel.
    pose proof (@modify_class_filters_core matches sk c n skips Hwf Hsel) as F.
    unfold run_state, run_exn in *.
    destruct (_modify_class_desc matches sk c n) as [[tr c'] o]. simpl in *.
    intros Ho. rewrite (F Ho). reflexivity. }
  destruct sk as [| |dd|l|l], by_name; try contradiction; simpl.
  - destruct (dict_mem String.eqb (name c) dd) eqn:M.
    + destruct (dict_mem_get (name c) dd M) as [l E]. rewrite E.
      apply H. exact E.
    + rewrite (dict_not_mem_get (name c) dd M), filter_class_nil. reflexivity.
  - apply H. reflexivity.
Qed.

Lemma for_values_maps (K V : Type) (P : V -> Prop) (body : V -> run V)
    (g : V -> V) :
  (forall v, P v -> run_exn (body v) = None -> run_state (body v) = g v) ->
  forall d : dict K V,
    Forall (fun kv => P (snd kv)) d ->
    run_exn (for_values body d) = None ->
    run_state (for_values body d) = map_values g d.
Proof.
  intros Hbody. unfold run_state, run_exn in *.
  induction d as [|[k v] rest IH]; simpl; intros Hd; [reflexivity|].
  inversion Hd as [|? ? Hv Hrest]; subst. simpl in Hv.
  specialize (Hbody v Hv).
  destruct (body v) as [[tr v'] [e|]]; simpl in *; [discriminate|].
  specialize (IH Hrest).
  destruct (for_values body rest) as [[tr' rest'] o']. simpl in *.
  intros Ho. rewrite (Hbody eq_refl), (IH Ho). reflexivity.
Qed.

Lemma walk_filters (sk : skipconf TypeMatcher) (by_name : bool) (e : environ) :
  walk_mode sk by_name ->
  env_wf e ->
  run_exn (for_values (for_values (visit_desc matches sk by_name)) e) = None ->
  run_state (for_values (for_values (visit_desc matches sk by_name)) e) =
    filter_env matches sk e.
Proof.
  intros Hmode [_ Hwf]. unfold filter_env.
  apply for_values_maps
    with (P := fun m : module => Forall (fun kv => desc_wf (snd kv)) m).
  - intros m Hm. apply for_values_maps with (P := desc_wf); [|exact Hm].
    intros d Hd. apply visit_desc_filters; assumption.
  - eapply Forall_impl; [|exact Hwf]. intros kv [_ H]. exact H.
Qed.

Lemma execute_walk (rc : RunControl TypeMatcher) :
  (exists by_name,
      walk_mode (skiptypes rc) by_name
      /\ run_trace (execute matches rc) =
         run_trace (for_values (for_values
                      (visit_desc matches (skiptypes rc) by_name)) (env rc))
      /\ env (run_state (execute matches rc)) =
         run_state (for_values (for_values
                      (visit_desc matches (skiptypes rc) by_name)) (env rc))
      /\ run_exn (execute matches rc) =
         run_exn (for_values (for_values
                     (visit_desc matches (skiptypes rc) by_name)) (env rc)))
  \/ ((forall c, applicable (skiptypes rc) c = [])
      /\ execute matches rc = ([], rc, None)).
Proof.
  unfold execute, run_trace, run_state, run_exn.
  destruct (skiptypes rc) as [| |d|l|l] eqn:E;
    try (right; split; [intros c; reflexivity | reflexivity]); left.
  - exists true.
    destruct (for_values (for_values (visit_desc matches (SkipDict d) true)) (env rc))
      as [[tr e'] o].
    repeat split.
  - exists false.
    destruct (for_values (for_values (visit_desc matches (SkipList l) false)) (env rc))
      as [[tr e'] o].
    repeat split.
Qed.

Lemma execute_filters_core (rc : RunControl TypeMatcher) :
  env_wf (env rc) ->
  run_exn (execute matches rc) = None ->
  env (run_state (execute matches rc)) = filter_env matches (skiptypes rc) (env rc).
Proof.
  intros Hwf. destruct (execute_walk rc) as [[b [Hm [_ [-> ->]]]]|[Ha E]].
  - apply walk_filters; assumption.
  - rewrite E. intros _. simpl. rewrite (filter_env_inert _ _ Ha). reflexivity.
Qed.

End FilterRuns.

(** X4.  When [_modify_class_desc] ends without an exception on a class with
    distinct keys, the class keeps exactly the attributes whose type no
    matcher matches anywhere and the methods none of whose types (return
    type, parameter types) a matcher matches anywhere, in their order. *)
Theorem modify_class_desc_filters (matches : TypeMatcher -> pyval -> res bool)
    (sk : skipconf TypeMatcher) (c : classdesc) (n : option string)
    (skips : list TypeMatcher) :
  class_wf c ->
  select_skips sk n = Ok skips ->
  run_exn (_modify_class_desc matches sk c n) = None ->
  run_state (_modify_class_desc matches sk c n) =
    new_classdesc (name c)
      (filter (fun a => negb (existsb (fun tm => matched matches tm (snd a)) skips))
         (attrs c))
      (filter (fun m => negb (existsb
                                (fun t => existsb (fun tm => matched matches tm t) skips)
                                (snd m :: map arg_type (m_args (fst m)))))
         (methods c)).
Proof. apply modify_class_filters_core. Qed.

Lemma Blah_wf : class_wf Blah.
Proof. unfold class_wf, dict_wf. simpl. split; distinct_keys. Qed.

Lemma modify_class_desc_filters_witness :
  run_state (_modify_class_desc exact_matches
               (SkipList [new_TypeMatcher float64]) Blah None) =
    new_classdesc "Blah"
      (filter (fun a => negb (existsb (fun tm => matched exact_matches tm (snd a))
                               [new_TypeMatcher float64]))
         (attrs Blah))
      (filter (fun m => negb (existsb
                                (fun t => existsb (fun tm => matched exact_matches tm t)
                                            [new_TypeMatcher float64])
                                (snd m :: map arg_type (m_args (fst m)))))
         (methods Blah)).
Proof.
  apply (@modify_class_desc_filters exact_matches
           (SkipList [new_TypeMatcher float64]) Blah None [new_TypeMatcher float64]).
  - exact Blah_wf.
  - reflexivity.
  - reflexivity.
Defined.

(** X5.  When [execute] ends without an exception on a model with distinct keys,
    the model it leaves is the model it found with every class filtered by
    the matchers that apply to it: the list itself under a list, the entry of
    the class name under a dictionary (none when the name is no key), and
    none under the unset sentinel, [None] or a tuple. *)
Theorem execute_filters (matches : TypeMatcher -> pyval -> res bool)
    (rc : RunControl TypeMatcher) :
  env_wf (env rc) ->
  run_exn (execute matches rc) = None ->
  env (run_state (execute matches rc)) = filter_env matches (skiptypes rc) (env rc)
  /\ skiptypes (run_state (execute matches rc)) = skiptypes rc.
Proof.
  intros Hwf Ho. split; [apply execute_filters_core; assumption|].
  apply execute_skiptypes.
Qed.

Lemma execute_filters_witness :
  env (run_state (execute exact_matches
                    (setup (new_rc (SkipDict [("Blah", [float64])]) model)))) =
    filter_env exact_matches (SkipDict [("Blah", [new_TypeMatcher float64])]) model
  /\ skiptypes (run_state (execute exact_matches
                    (setup (new_rc (SkipDict [("Blah", [float64])]) model)))) =
     SkipDict [("Blah", [new_TypeMatcher float64])].
Proof.
  apply (@execute_filters exact_matches
           (setup (new_rc (SkipDict [("Blah", [float64])]) model))).
  - exact model_wf.
  - reflexivity.
Defined.

(** ** Where exceptions come from *)

(** The trace ends with a call of [matches] that raised [e]. *)
Definition raised_last (matches : TypeMatcher -> pyval -> res bool) (e : exn)
    (tr : trace) : Prop :=
  exists tr0 tm t, tr = tr0 ++ [(tm, t)] /\ matches tm t = Raise e.

Section Provenance.

Variable matches : TypeMatcher -> pyval -> res bool.

Lemma raised_last_app (e : exn) (tr tr' : trace) :
  raised_last matches e tr' -> raised_last matches e (tr ++ tr').
Proof.
  intros [tr0 [tm [t [-> E]]]]. exists (tr ++ tr0), tm, t.
  rewrite app_assoc. auto.
Qed.

Lemma matches_each_raise (self : TypeMatcher) (leaves : list pyval) (e : exn) :
  snd (matches_each matches self leaves) = Raise e ->
  raised_last matches e (fst (matches_each matches self leaves)).
Proof.
  induction leaves as [|i rest IH]; simpl; [discriminate|].
  destruct (matches self i) as [b|e0] eqn:E; simpl.
  - destruct (matches_each matches self rest) as [tr [bs|e1]]; simpl in *;
      [discriminate|].
    intros H. injection H as ->.
    apply (@raised_last_app e [(self, i)] _). apply IH. reflexivity.
  - intros H. injection H as ->. exists [], self, i. auto.
Qed.

Lemma match_anywhere_raise (self : TypeMatcher) (t : pyval) (e : exn) :
  snd (_match_anywhere matches self t) = Raise e ->
  raised_last matches e (fst (_match_anywhere matches self t)).
Proof.
  unfold _match_anywhere.
  destruct (matches self t) as [[|]|e0] eqn:E.
  - discriminate.
  - destruct (is_str t); [discriminate|].
    destruct (is_list_or_tuple t) eqn:Hc; [|discriminate].
    rewrite (flatten_composite t Hc). cbn [py_iter].
    pose proof (@matches_each_raise self (atoms t) e) as R.
    destruct (matches_each matches self (atoms t)) as [tr [bs|e1]]; simpl in *;
      [discriminate|].
    intros H. injection H as ->.
    apply (@raised_last_app e [(self, t)] _). apply R. reflexivity.
  - destruct e0; simpl; try discriminate;
      intros H; injection H as <-; exists [], self, t; auto.
Qed.

Lemma first_match_raise (tests : list (TypeMatcher * pyval)) (e : exn) :
  snd (first_match matches tests) = Raise e ->
  raised_last matches e (fst (first_match matches tests)).
Proof.
  induction tests as [|[tm t] tests IH]; simpl; [discriminate|].
  pose proof (@match_anywhere_raise tm t e) as R.
  destruct (_match_anywhere matches tm t) as [tr [v|e0]]; simpl in *.
  - destruct (truthy v); [discriminate|].
    destruct (first_match matches tests) as [tr' r']. simpl in *.
    intros H. apply raised_last_app. apply IH. exact H.
  - intros H. apply R. congruence.
Qed.

Lemma prune_raise (K : Type) (tests : K * pyval -> list (TypeMatcher * pyval))
    (d : dict K pyval) (e : exn) :
  run_exn (prune matches tests d) = Some e ->
  raised_last matches e (run_trace (prune matches tests d)).
Proof.
  unfold run_exn, run_trace. induction d as [|kv rest IH]; simpl; [discriminate|].
  pose proof (@first_match_raise (tests kv) e) as R.
  destruct (first_match matches (tests kv)) as [tr [hit|e0]]; simpl in *.
  - destruct (prune matches tests rest) as [[tr' rest'] o]. simpl in *.
    intros H. apply raised_last_app. apply IH. exact H.
  - intros H. injection H as ->. apply R. reflexivity.
Qed.

Lemma modify_class_raise (sk : skipconf TypeMatcher) (c : classdesc)
    (n : option string) (skips : list TypeMatcher) (e : exn) :
  class_wf c ->
  select_skips sk n = Ok skips ->
  run_exn (_modify_class_desc matches sk c n) = Some e ->
  raised_last matches e (run_trace (_modify_class_desc matches sk c n)).
Proof.
  intros [Wa Wm] Hsel. unfold _modify_class_desc. rewrite Hsel.
  rewrite (attrs_loop_prune matches skips Wa).
  pose proof (@prune_raise string (attr_tests skips) (attrs c) e) as Ra.
  unfold run_trace, run_exn in *.
  destruct (prune matches (attr_tests skips) (attrs c)) as [[tr1 a'] [e1|]];
    simpl in *; [exact Ra|].
  rewrite (methods_loop_prune matches skips Wm).
  pose proof (@prune_raise method_key (method_tests skips) (methods c) e) as Rm.
  unfold run_trace, run_exn in *.
  destruct (prune matches (method_tests skips) (methods c)) as [[tr2 m'] o2];
    simpl in *.
  intros H. apply raised_last_app. apply Rm. exact H.
Qed.

Lemma visit_desc_raise (sk : skipconf TypeMatcher) (by_name : bool) (d : desc)
    (e : exn) :
  walk_mode sk by_name ->
  desc_wf d ->
  run_exn (visit_desc matches sk by_name d) = Some e ->
  raised_last matches e (run_trace (visit_desc matches sk by_name d)).
Proof.
  intros Hmode Hwf. destruct d as [c|b]; [|discriminate]. simpl in Hwf.
  assert (H : forall n skips,
             select_skips sk n = Ok skips ->
             run_exn (let '(tr, c', o) := _modify_class_desc matches sk c n in
                      (tr, ClassDesc c', o)) = Some e ->
             raised_last matches e
               (run_trace (let '(tr, c', o) := _modify_class_desc matches sk c n in
                           (tr, ClassDesc c', o)))).
  { intros n skips Hsel.
    pose proof (@modify_class_raise sk c n skips e Hwf Hsel) as R.
    unfold run_trace, run_exn in *.
    destruct (_modify_class_desc matches sk c n) as [[tr c'] o]. exact R. }
  destruct sk as [| |dd|l|l], by_name; try contradiction; simpl.
  - destruct (dict_mem String.eqb (name c) dd) eqn:M; [|discriminate].
    destruct (dict_mem_get (name c) dd M) as [l E].
    apply H with l. exact E.
  - apply H with l. reflexivity.
Qed.

Lemma for_values_raise (K V : Type) (P : V -> Prop) (body : V -> run V) (e : exn) :
  (forall v, P v -> run_exn (body v) = Some e ->
             raised_last matches e (run_trace (body v))) ->
  forall d : dict K V,
    Forall (fun kv => P (snd kv)) d ->
    run_exn (for_values body d) = Some e ->
    raised_last matches e (run_trace (for_values body d)).
Proof.
  intros Hbody. unfold run_trace, run_exn in *.
  induction d as [|[k v] rest IH]; simpl; intros Hd; [discriminate|].
  inversion Hd as [|? ? Hv Hrest]; subst. simpl in Hv.
  specialize (Hbody v Hv).
  destruct (body v) as [[tr v'] [e0|]]; simpl in *.
  - exact Hbody.
  - specialize (IH Hrest).
    destruct (for_values body rest) as [[tr' rest'] o']. simpl in *.
    intros H. apply raised_last_app. apply IH. exact H.
Qed.

Lemma execute_raise_core (rc : RunControl TypeMatcher) (e : exn) :
  env_wf (env rc) ->
  run_exn (execute matches rc) = Some e ->
  raised_last matches e (run_trace (execute matches rc)).
Proof.
  intros [_ Hwf]. destruct (execute_walk matches rc) as [[b [Hm [-> [_ ->]]]]|[_ E]].
  - apply for_values_raise
      with (P := fun m : module => Forall (fun kv => desc_wf (snd kv)) m).
    + intros m Hmw. apply for_values_raise with (P := desc_wf); [|exact Hmw].
      intros d Hd. apply visit_desc_raise; assumption.
    + eapply Forall_impl; [|exact Hwf]. intros kv [_ H]. exact H.
  - rewrite E. discriminate.
Qed.

Lemma execute_total_core (rc : RunControl TypeMatcher) :
  (forall tm t, exists b, matches tm t = Ok b) ->
  env_wf (env rc) ->
  run_exn (execute matches rc) = None.
Proof.
  intros Htot Hwf. destruct (run_exn (execute matches rc)) as [e|] eqn:E;
    [|reflexivity].
  destruct (@execute_raise_core rc e Hwf E) as [tr0 [tm [t [_ R]]]].
  destruct (Htot tm t) as [b Hb]. congruence.
Qed.

End Provenance.

(** X6.  An exception that ends [execute] on a model with distinct keys is the
    exception of the last call of [matches] the run made: the pass raises
    nothing of its own, no [KeyError] from a [del] and no error from looking
    up the matchers of a class. *)
Theorem execute_exception_comes_from_matches
    (matches : TypeMatcher -> pyval -> res bool) (rc : RunControl TypeMatcher)
    (e : exn) :
  env_wf (env rc) ->
  run_exn (execute matches rc) = Some e ->
  exists tr0 tm t,
    run_trace (execute matches rc) = tr0 ++ [(tm, t)]
    /\ matches tm t = Raise e.
Proof. apply execute_raise_core. Qed.

Lemma execute_exception_comes_from_matches_witness :
  exists tr0 tm t,
    run_trace (execute strict_matches (setup (new_rc (SkipList [int32_cref]) model)))
      = tr0 ++ [(tm, t)]
    /\ strict_matches tm t = Raise TypeError.
Proof.
  apply (@execute_exception_comes_from_matches strict_matches
           (setup (new_rc (SkipList [int32_cref]) model)) TypeError).
  - exact model_wf.
  - vm_compute. reflexivity.
Defined.

(** X7.  With a matcher that always returns, [execute] on a model with distinct
    keys raises nothing and leaves every class filtered by the matchers that
    apply to it. *)
Theorem execute_with_total_matcher
    (matches : TypeMatcher -> pyval -> res bool) (rc : RunControl TypeMatcher) :
  (forall tm t, exists b, matches tm t = Ok b) ->
  env_wf (env rc) ->
  run_exn (execute matches rc) = None
  /\ env (run_state (execute matches rc)) = filter_env matches (skiptypes rc) (env rc).
Proof.
  intros Htot Hwf.
  pose proof (@execute_total_core matches rc Htot Hwf) as Ho.
  split; [exact Ho|]. apply execute_filters_core; assumption.
Qed.

Lemma execute_with_total_matcher_witness :
  run_exn (execute exact_matches (setup (new_rc (SkipList [float64; int32_cref]) model)))
    = None
  /\ env (run_state (execute exact_matches
                       (setup (new_rc (SkipList [float64; int32_cref]) model)))) =
     filter_env exact_matches
       (SkipList [new_TypeMatcher float64; new_TypeMatcher int32_cref]) model.
Proof.
  apply (@execute_with_total_matcher exact_matches
           (setup (new_rc (SkipList [float64; int32_cref]) model))).
  - intros tm t. eexists. reflexivity.
  - exact model_wf.
Defined.

(** ** What the matchers are asked *)

(** The types a class carries: the types of its attributes, and the return
    type and parameter types of its methods. *)
Definition class_types (c : classdesc) : list pyval :=
  map snd (attrs c) ++ flat_map method_types (methods c).

(** The matchers a configuration holds. *)
Definition configured (sk : skipconf TypeMatcher) : list TypeMatcher :=
  match sk with
  | SkipList l | SkipTuple l => l
  | SkipDict d => flat_map snd d
  | NotSpecified | SkipNone => []
  end.

Section Calls.

Variable matches : TypeMatcher -> pyval -> res bool.

Lemma match_anywhere_calls (self : TypeMatcher) (t : pyval) (tm : TypeMatcher)
    (x : pyval) :
  In (tm, x) (fst (_match_anywhere matches self t)) ->
  tm = self /\ (x = t \/ nested x t).
Proof.
  unfold _match_anywhere.
  destruct (matches self t) as [[|]|e] eqn:E.
  - intros [H|[]]. inversion H. auto.
  - destruct (is_str t).
    + intros [H|[H|[]]]; inversion H; auto.
    + destruct (is_list_or_tuple t) eqn:Hc.
      * rewrite (flatten_composite t Hc). cbn [py_iter].
        pose proof (matches_each_calls matches self (atoms t) tm x) as Hcalls.
        destruct (matches_each matches self (atoms t)) as [tr r]. simpl in *.
        intros [H|H]; [inversion H; auto|].
        destruct (Hcalls H) as [-> Hx]. split; [reflexivity|].
        destruct (atoms_nested t x Hx) as [_ Hn]. exact Hn.
      * intros [H|[]]. inversion H. auto.
  - destruct e; intros [H|[]]; inversion H; auto.
Qed.

Lemma first_match_calls (tests : list (TypeMatcher * pyval)) (tm : TypeMatcher)
    (x : pyval) :
  In (tm, x) (fst (first_match matches tests)) ->
  exists t, In (tm, t) tests /\ (x = t \/ nested x t).
Proof.
  induction tests as [|[tm0 t0] tests IH]; simpl; [contradiction|].
  pose proof (@match_anywhere_calls tm0 t0 tm x) as Hc.
  destruct (_match_anywhere matches tm0 t0) as [tr [v|e]]; simpl in *.
  - assert (Hhead : In (tm, x) tr -> exists t, ((tm0, t0) = (tm, t) \/ In (tm, t) tests)
                                               /\ (x = t \/ nested x t)).
    { intros H. destruct (Hc H) as [-> Hx]. exists t0. auto. }
    destruct (truthy v); [exact Hhead|].
    destruct (first_match matches tests) as [tr' r']. simpl in *.
    intros H. apply in_app_or in H. destruct H as [H|H]; [auto|].
    destruct (IH H) as [t [Ht Hx]]. exists t. auto.
  - intros H. destruct (Hc H) as [-> Hx]. exists t0. auto.
Qed.

Lemma settle_trace (K : Type) (eqb : K -> K -> bool) (r : trace * res bool)
    (key : K) (d : dict K pyval) :
  run_trace (settle eqb r key d) = fst r.
Proof.
  unfold run_trace, settle. destruct r as [tr [[|]|e]]; try reflexivity.
  destruct (dict_del eqb key d); reflexivity.
Qed.

Lemma settle_loop_calls (K : Type) (eqb : K -> K -> bool)
    (tests : K * pyval -> list (TypeMatcher * pyval)) (snapshot : list (K * pyval))
    (d : dict K pyval) (call : TypeMatcher * pyval) :
  In call (run_trace (settle_loop matches eqb tests snapshot d)) ->
  exists kv, In kv snapshot /\ In call (fst (first_match matches (tests kv))).
Proof.
  revert d. induction snapshot as [|kv rest IH]; intros d; simpl; [contradiction|].
  pose proof (settle_trace eqb (first_match matches (tests kv)) (fst kv) d) as T.
  unfold run_trace in *.
  destruct (settle eqb (first_match matches (tests kv)) (fst kv) d)
    as [[tr [d1 fl]] [e|]]; simpl in *; subst tr.
  - intros H. exists kv. auto.
  - specialize (IH d1).
    destruct (settle_loop matches eqb tests rest d1) as [[tr' d'] o']. simpl in *.
    intros H. apply in_app_or in H. destruct H as [H|H].
    + exists kv. auto.
    + destruct (IH H) as [kv' [Hin Hc]]. exists kv'. auto.
Qed.

Lemma modify_class_calls (sk : skipconf TypeMatcher) (c : classdesc)
    (n : option string) (tm : TypeMatcher) (x : pyval) :
  In (tm, x) (run_trace (_modify_class_desc matches sk c n)) ->
  exists skips t0,
    select_skips sk n = Ok skips /\ In tm skips
    /\ In t0 (class_types c) /\ (x = t0 \/ nested x t0).
Proof.
  unfold _modify_class_desc, run_trace.
  destruct (select_skips sk n) as [skips|e]; [|contradiction].
  rewrite attrs_loop_settle, methods_loop_settle.
  assert (Ha : In (tm, x) (run_trace (settle_loop matches String.eqb
                             (attr_tests skips) (attrs c) (attrs c))) ->
               exists t0, In tm skips /\ In t0 (class_types c)
                          /\ (x = t0 \/ nested x t0)).
  { intros H. apply settle_loop_calls in H. destruct H as [a [Hin Hc]].
    apply first_match_calls in Hc. destruct Hc as [t [Ht Hx]].
    unfold attr_tests, tests_on in Ht. apply in_map_iff in Ht.
    destruct Ht as [tm' [E Htm]]. inversion E; subst.
    exists (snd a). repeat split; [exact Htm| |exact Hx].
    unfold class_types. apply in_or_app. left. apply in_map. exact Hin. }
  assert (Hm : In (tm, x) (run_trace (settle_loop matches method_key_eqb
                             (method_tests skips) (methods c) (methods c))) ->
               exists t0, In tm skips /\ In t0 (class_types c)
                          /\ (x = t0 \/ nested x t0)).
  { intros H. apply settle_loop_calls in H. destruct H as [m [Hin Hc]].
    apply first_match_calls in Hc. destruct Hc as [t [Ht Hx]].
    unfold method_tests in Ht. apply in_flat_map in Ht.
    destruct Ht as [t0 [Ht0 Ht]].
    unfold tests_on in Ht. apply in_map_iff in Ht.
    destruct Ht as [tm' [E Htm]]. inversion E; subst.
    exists t. repeat split; [exact Htm| |exact Hx].
    unfold class_types. apply in_or_app. right.
    apply in_flat_map. exists m. auto. }
  unfold run_trace in *.
  destruct (settle_loop matches String.eqb (attr_tests skips) (attrs c) (attrs c))
    as [[tr1 a'] [e|]]; simpl in *.
  - intros H. destruct (Ha H) as [t0 Ht0]. exists skips, t0. auto.
  - destruct (settle_loop matches method_key_eqb (method_tests skips)
                (methods c) (methods c)) as [[tr2 m'] o2]. simpl in *.
    intros H. apply in_app_or in H.
    destruct H as [H|H]; [destruct (Ha H) as [t0 Ht0] | destruct (Hm H) as [t0 Ht0]];
      exists skips, t0; auto.
Qed.

Lemma select_skips_configured (sk : skipconf TypeMatcher) (n : option string)
    (skips : list TypeMatcher) (tm : TypeMatcher) :
  select_skips sk n = Ok skips -> In tm skips -> In tm (configured sk).
Proof.
  destruct n as [n|], sk as [| |d|l|l]; simpl; try discriminate.
  - intros E Htm. apply dict_get_In in E.
    apply in_flat_map. exists (n, skips). auto.
  - intros E. injection E as ->. auto.
  - intros E. injection E as ->. auto.
Qed.

Lemma visit_desc_calls (sk : skipconf TypeMatcher) (by_name : bool) (d : desc)
    (tm : TypeMatcher) (x : pyval) :
  In (tm, x) (run_trace (visit_desc matches sk by_name d)) ->
  In tm (configured sk)
  /\ exists c t0, d = ClassDesc c /\ In t0 (class_types c)
                  /\ (x = t0 \/ nested x t0).
Proof.
  destruct d as [c|b]; [|contradiction].
  assert (H : forall n,
             In (tm, x) (run_trace (let '(tr, c', o) :=
                                      _modify_class_desc matches sk c n in
                                    (tr, ClassDesc c', o))) ->
             In tm (configured sk)
             /\ exists c0 t0, ClassDesc c = ClassDesc c0 /\ In t0 (class_types c0)
                              /\ (x = t0 \/ nested x t0)).
  { intros n. pose proof (@modify_class_calls sk c n tm x) as M.
    unfold run_trace in *.
    destruct (_modify_class_desc matches sk c n) as [[tr c'] o]. simpl in *.
    intros Hin. destruct (M Hin) as [skips [t0 [Hsel [Htm [Ht0 Hx]]]]].
    split; [eapply select_skips_configured; eauto|].
    exists c, t0. auto. }
  unfold visit_desc. destruct by_name; [|apply H].
  destruct sk as [| |dd|l|l]; try contradiction.
  destruct (dict_mem String.eqb (name c) dd); [apply H | contradiction].
Qed.

Lemma for_values_calls (K V : Type) (body : V -> run V) (d : dict K V)
    (call : TypeMatcher * pyval) :
  In call (run_trace (for_values body d)) ->
  exists kv, In kv d /\ In call (run_trace (body (snd kv))).
Proof.
  unfold run_trace. induction d as [|[k v] rest IH]; simpl; [contradiction|].
  destruct (body v) as [[tr v'] [e|]] eqn:E; simpl.
  - intros H. exists (k, v). simpl. rewrite E. auto.
  - destruct (for_values body rest) as [[tr' rest'] o']. simpl in *.
    intros H. apply in_app_or in H. destruct H as [H|H].
    + exists (k, v). simpl. rewrite E. auto.
    + destruct (IH H) as [kv [Hin Hc]]. exists kv. auto.
Qed.

Lemma execute_calls_core (rc : RunControl TypeMatcher) (tm : TypeMatcher)
    (x : pyval) :
  In (tm, x) (run_trace (execute matches rc)) ->
  In tm (configured (skiptypes rc))
  /\ exists mod_key m kls_key c t0,
      In (mod_key, m) (env rc) /\ In (kls_key, ClassDesc c) m
      /\ In t0 (class_types c) /\ (x = t0 \/ nested x t0).
Proof.
  destruct (execute_walk matches rc) as [[b [_ [-> _]]]|[_ E]].
  - intros H. apply for_values_calls in H. destruct H as [[mod_key m] [Hm H]].
    apply for_values_calls in H. destruct H as [[kls_key d] [Hd H]].
    simpl in Hd, H. apply visit_desc_calls in H. destruct H as [Htm [c [t0 [-> [Ht0 Hx]]]]].
    split; [exact Htm|]. exists mod_key, m, kls_key, c, t0. auto.
  - rewrite E. contradiction.
Qed.

End Calls.

(** X8.  Every call of [matches] that [execute] makes is by a matcher of the
    configuration, on a type carried by a class of the model (an attribute
    type, a return type or a parameter type) or on an element nested in such
    a type: names, default values and descriptions that are not classes are
    never passed to a matcher. *)
Theorem execute_asks_only_about_class_types
    (matches : TypeMatcher -> pyval -> res bool) (rc : RunControl TypeMatcher)
    (tm : TypeMatcher) (x : pyval) :
  In (tm, x) (run_trace (execute matches rc)) ->
  In tm (configured (skiptypes rc))
  /\ exists mod_key m kls_key c t0,
      In (mod_key, m) (env rc) /\ In (kls_key, ClassDesc c) m
      /\ In t0 (map snd (attrs c)
                ++ flat_map (fun m => snd m :: map arg_type (m_args (fst m)))
                     (methods c))
      /\ (x = t0 \/ nested x t0).
Proof. apply execute_calls_core. Qed.

Lemma execute_asks_only_about_class_types_witness :
  In (new_TypeMatcher float64)
    (configured (skiptypes (setup (new_rc (SkipList [float64]) model))))
  /\ exists mod_key m kls_key c t0,
      In (mod_key, m) (env (setup (new_rc (SkipList [float64]) model)))
      /\ In (kls_key, ClassDesc c) m
      /\ In t0 (map snd (attrs c)
                ++ flat_map (fun m => snd m :: map arg_type (m_args (fst m)))
                     (methods c))
      /\ (VStr "const" = t0 \/ nested (VStr "const") t0).
Proof.
  apply (@execute_asks_only_about_class_types exact_matches
           (setup (new_rc (SkipList [float64]) model))
           (new_TypeMatcher float64) (VStr "const")).
  vm_compute. tauto.
Defined.

(** ** Configurations compared *)

From Stdlib Require Import Permutation.

(** X9.  A dictionary that gives every class of the model the same list acts as
    that list given globally: same calls, same resulting model, same
    outcome. *)
Theorem per_class_lists_act_as_global_list
    (matches : TypeMatcher -> pyval -> res bool)
    (d : dict string (list TypeMatcher)) (l : list TypeMatcher) (e : environ) :
  (forall mod_key m kls_key c,
      In (mod_key, m) e -> In (kls_key, ClassDesc c) m ->
      dict_get String.eqb (name c) d = Ok l) ->
  run_trace (execute matches (new_rc (SkipDict d) e)) =
    run_trace (execute matches (new_rc (SkipList l) e))
  /\ env (run_state (execute matches (new_rc (SkipDict d) e))) =
    env (run_state (execute matches (new_rc (SkipList l) e)))
  /\ run_exn (execute matches (new_rc (SkipDict d) e)) =
    run_exn (execute matches (new_rc (SkipList l) e)).
Proof.
  intros Hall.
  assert (E : for_values (for_values (visit_desc matches (SkipDict d) true)) e =
              for_values (for_values (visit_desc matches (SkipList l) false)) e).
  { apply for_values_ext. intros [mod_key m] Hm. simpl.
    apply for_values_ext. intros [kls_key [c|b]] Hc; [|reflexivity]. simpl.
    pose proof (Hall mod_key m kls_key c Hm Hc) as G.
    rewrite (dict_get_mem (name c) d G).
    unfold _modify_class_desc. simpl select_skips. rewrite G. reflexivity. }
  unfold execute, run_trace, run_state, run_exn. simpl. rewrite E.
  destruct (for_values (for_values (visit_desc matches (SkipList l) false)) e)
    as [[tr e'] o].
  repeat split.
Qed.

Lemma per_class_lists_act_as_global_list_witness :
  run_trace (execute strict_matches
               (new_rc (SkipDict [("Blah", [new_TypeMatcher int32_cref])]) model)) =
    run_trace (execute strict_matches
                 (new_rc (SkipList [new_TypeMatcher int32_cref]) model))
  /\ env (run_state (execute strict_matches
               (new_rc (SkipDict [("Blah", [new_TypeMatcher int32_cref])]) model))) =
    env (run_state (execute strict_matches
                      (new_rc (SkipList [new_TypeMatcher int32_cref]) model)))
  /\ run_exn (execute strict_matches
               (new_rc (SkipDict [("Blah", [new_TypeMatcher int32_cref])]) model)) =
    run_exn (execute strict_matches
               (new_rc (SkipList [new_TypeMatcher int32_cref]) model)).
Proof.
  apply (@per_class_lists_act_as_global_list strict_matches
           [("Blah", [new_TypeMatcher int32_cref])] [new_TypeMatcher int32_cref] model).
  intros mod_key m kls_key c Hm Hc.
  simpl in Hm. destruct Hm as [Hm|[]]. injection Hm as _ <-.
  simpl in Hc. destruct Hc as [Hc|[Hc|[]]]; [|discriminate].
  injection Hc as _ <-. reflexivity.
Defined.

Section Lists.

Variable matches : TypeMatcher -> pyval -> res bool.

Lemma existsb_permutation (A : Type) (f : A -> bool) (l l' : list A) :
  Permutation l l' -> existsb f l = existsb f l'.
Proof.
  induction 1 as [|x l l' _ IH|x y l|l l' l'' _ IH1 _ IH2]; simpl.
  - reflexivity.
  - rewrite IH. reflexivity.
  - destruct (f x), (f y); reflexivity.
  - congruence.
Qed.

Lemma existsb_pointwise (A : Type) (f g : A -> bool) (l : list A) :
  (forall x, f x = g x) -> existsb f l = existsb g l.
Proof.
  intros H. induction l as [|x l IH]; simpl; [reflexivity|].
  rewrite H, IH. reflexivity.
Qed.

Lemma existsb_orb (A : Type) (f g : A -> bool) (l : list A) :
  existsb (fun x => f x || g x) l = existsb f l || existsb g l.
Proof.
  induction l as [|x l IH]; simpl; [reflexivity|].
  rewrite IH. destruct (f x), (g x), (existsb f l), (existsb g l); reflexivity.
Qed.

Lemma filter_twice (A : Type) (p q : A -> bool) (l : list A) :
  filter q (filter p l) = filter (fun x => p x && q x) l.
Proof.
  induction l as [|x l IH]; simpl; [reflexivity|].
  destruct (p x); simpl; [destruct (q x)|]; rewrite IH; reflexivity.
Qed.

Lemma map_values_twice (K V : Type) (f g : V -> V) (d : dict K V) :
  map_values g (map_values f d) = map_values (fun v => g (f v)) d.
Proof.
  unfold map_values. rewrite map_map. reflexivity.
Qed.

Lemma map_values_pointwise (K V : Type) (f g : V -> V) (d : dict K V) :
  (forall v, f v = g v) -> map_values f d = map_values g d.
Proof.
  intros H. unfold map_values. apply map_ext. intros [k v]. simpl.
  rewrite H. reflexivity.
Qed.

Lemma filter_class_permutation (l l' : list TypeMatcher) (c : classdesc) :
  Permutation l l' -> filter_class matches l c = filter_class matches l' c.
Proof.
  intros P.
  assert (Hex : forall t, excluded matches l t = excluded matches l' t).
  { intros t. apply existsb_permutation. exact P. }
  unfold filter_class. f_equal.
  - apply filter_ext. intros a. unfold attr_survives. rewrite Hex. reflexivity.
  - apply filter_ext. intros m. unfold method_survives.
    rewrite (existsb_pointwise _ _ (method_types m) Hex). reflexivity.
Qed.

Lemma filter_class_app (l more : list TypeMatcher) (c : classdesc) :
  filter_class matches more (filter_class matches l c) =
    filter_class matches (l ++ more) c.
Proof.
  assert (Hex : forall t, excluded matches (l ++ more) t =
                          excluded matches l t || excluded matches more t).
  { intros t. unfold excluded. apply existsb_app. }
  unfold filter_class. simpl. rewrite !filter_twice. f_equal.
  - apply filter_ext. intros a. unfold attr_survives.
    rewrite Hex, negb_orb. reflexivity.
  - apply filter_ext. intros m. unfold method_survives.
    rewrite (existsb_pointwise _ _ (method_types m) Hex), existsb_orb, negb_orb.
    reflexivity.
Qed.

Lemma filter_env_list_pointwise (l l' : list TypeMatcher) (e : environ) :
  (forall c, filter_class matches l c = filter_class matches l' c) ->
  filter_env matches (SkipList l) e = filter_env matches (SkipList l') e.
Proof.
  intros H. unfold filter_env.
  apply map_values_pointwise. intros m.
  apply map_values_pointwise. intros [c|b]; [|reflexivity].
  simpl. rewrite H. reflexivity.
Qed.

Lemma filter_env_list_app (l more : list TypeMatcher) (e : environ) :
  filter_env matches (SkipList more) (filter_env matches (SkipList l) e) =
    filter_env matches (SkipList (l ++ more)) e.
Proof.
  unfold filter_env. rewrite map_values_twice.
  apply map_values_pointwise. intros m. rewrite map_values_twice.
  apply map_values_pointwise. intros [c|b]; [|reflexivity].
  simpl. rewrite filter_class_app. reflexivity.
Qed.

End Lists.

(** X10.  With a matcher that always returns, the order of the patterns of a
    global list does not change the model that [execute] leaves. *)
Theorem pattern_order_is_irrelevant
    (matches : TypeMatcher -> pyval -> res bool)
    (l l' : list TypeMatcher) (e : environ) :
  (forall tm t, exists b, matches tm t = Ok b) ->
  env_wf e ->
  Permutation l l' ->
  env (run_state (execute matches (new_rc (SkipList l) e))) =
    env (run_state (execute matches (new_rc (SkipList l') e))).
Proof.
  intros Htot Hwf P.
  rewrite (@execute_filters_core matches (new_rc (SkipList l) e) Hwf
             (@execute_total_core matches (new_rc (SkipList l) e) Htot Hwf)).
  rewrite (@execute_filters_core matches (new_rc (SkipList l') e) Hwf
             (@execute_total_core matches (new_rc (SkipList l') e) Htot Hwf)).
  simpl. apply filter_env_list_pointwise. intros c.
  apply filter_class_permutation. exact P.
Qed.

Lemma pattern_order_is_irrelevant_witness :
  env (run_state (execute exact_matches
         (new_rc (SkipList [new_TypeMatcher float64; new_TypeMatcher int32]) model))) =
    env (run_state (execute exact_matches
         (new_rc (SkipList [new_TypeMatcher int32; new_TypeMatcher float64]) model))).
Proof.
  apply (@pattern_order_is_irrelevant exact_matches
           [new_TypeMatcher float64; new_TypeMatcher int32]
           [new_TypeMatcher int32; new_TypeMatcher float64] model).
  - intros tm t. eexists. reflexivity.
  - exact model_wf.
  - apply perm_swap.
Defined.

(** X11.  With a matcher that always returns, a pass with the list [l] followed by
    a pass with the list [more] leaves the model that a single pass with
    [l ++ more] leaves. *)
Theorem passes_compose
    (matches : TypeMatcher -> pyval -> res bool)
    (l more : list TypeMatcher) (e : environ) :
  (forall tm t, exists b, matches tm t = Ok b) ->
  env_wf e ->
  env (run_state (execute matches
         (new_rc (SkipList more)
            (env (run_state (execute matches (new_rc (SkipList l) e))))))) =
    env (run_state (execute matches (new_rc (SkipList (l ++ more)) e))).
Proof.
  intros Htot Hwf.
  assert (Hwf' : env_wf (env (run_state (execute matches (new_rc (SkipList l) e))))).
  { apply (env_pruned_wf (execute_pruned matches (new_rc (SkipList l) e))).
    exact Hwf. }
  rewrite (@execute_filters_core matches (new_rc (SkipList more) _) Hwf'
             (@execute_total_core matches (new_rc (SkipList more) _) Htot Hwf')).
  rewrite (@execute_filters_core matches (new_rc (SkipList (l ++ more)) e) Hwf
             (@execute_total_core matches (new_rc (SkipList (l ++ more)) e) Htot Hwf)).
  simpl.
  rewrite (@execute_filters_core matches (new_rc (SkipList l) e) Hwf
             (@execute_total_core matches (new_rc (SkipList l) e) Htot Hwf)).
  simpl. apply filter_env_list_app.
Qed.

Lemma passes_compose_witness :
  env (run_state (execute exact_matches
         (new_rc (SkipList [new_TypeMatcher int32])
            (env (run_state (execute exact_matches
                               (new_rc (SkipList [new_TypeMatcher float64]) model))))))) =
    env (run_state (execute exact_matches
         (new_rc (SkipList ([new_TypeMatcher float64] ++ [new_TypeMatcher int32]))
            model))).
Proof.
  apply (@passes_compose exact_matches
           [new_TypeMatcher float64] [new_TypeMatcher int32] model).
  - intros tm t. eexists. reflexivity.
  - exact model_wf.
Defined.
